(** * Yoroi front-end stores: settings and transactions

    A shallow embedding of two MobX stores of the Yoroi wallet front end,
    [SettingsStore] and [TransactionsStore], and the properties their
    specification states about them.

    Conventions of the embedding.
    - A store is a record of its fields; a method reads and changes the
      store.  What a method asks of a collaborator (an action of the action
      bus, a cached request, the logger) is recorded in a log field of the
      store, most recent entry first.
    - A JavaScript value that is a [T] or [null] is an [option T], with
      [None] for [null].
    - An [async] function is split at each [await]: one function for the part
      up to the [await], one for the part that resumes when the awaited
      promise settles, which takes the settlement as an argument.
    - Integral JavaScript numbers (the search limit) are [Z]; the embedding
      does not follow doubles past 2^53. *)

From stdpp Require Import base strings list gmap.
From Stdlib Require Import ZArith Lia.

Open Scope Z_scope.

(** ** The request primitive *)

Module LocalizedRequest.

(** Modelled from the spec: the request primitive [lib/LocalizedRequest]
    is not among the sources.  The specification gives its interface:
    [execute(args) -> Promise<T>], [result: T|null], [wasExecuted: bool]
    and [reset()].  [execute] only starts the fetch: the result arrives
    when the promise settles, which is [settle] here. *)
Record Request (T : Type) : Type := mkRequest {
  result : option T;
  wasExecuted : bool;
  isExecuting : bool
}.
Arguments mkRequest {T} _ _ _.
Arguments result {T} _.
Arguments wasExecuted {T} _.
Arguments isExecuting {T} _.

(** Modelled from the spec: a request that was never executed has no
    result ([result: T|null]). *)
Definition new {T : Type} : Request T := mkRequest None false false.

(** Modelled from the spec: [execute(args) -> Promise<T>] starts the fetch
    and leaves the cached result as it is. *)
Definition execute {T : Type} (r : Request T) : Request T :=
  mkRequest (result r) (wasExecuted r) true.

(** Modelled from the spec: the promise is resolved with [v], which becomes
    the cached result. *)
Definition settle {T : Type} (v : option T) (r : Request T) : Request T :=
  mkRequest v true false.

(** Modelled from the spec: the promise is rejected; the fetch is over and
    brought no result. *)
Definition fail {T : Type} (r : Request T) : Request T :=
  mkRequest (result r) true false.

(** Modelled from the spec: [reset()] forgets what the request has cached. *)
Definition reset {T : Type} (r : Request T) : Request T := new.

End LocalizedRequest.

(** ** SettingsStore *)

Module SettingsStore.
Import LocalizedRequest.

(** [ROUTES] of [routes-config], as far as the store names them. *)
Inductive Route : Type :=
| PROFILE_LANGUAGE_SELECTION
| PROFILE_TERMS_OF_USE
| WALLETS_ROOT.

(** What the read of the terms acceptance may have cached.  The request is
    declared [Request<string>] and its result is compared with [true]: the
    value is a boolean or a string. *)
Inductive JsValue : Type :=
| JsBool (b : bool)
| JsString (s : string).

Record Store : Type := mkStore {
  getProfileLocaleRequest : Request string;
  getThemeRequest : Request string;
  getCustomThemeRequest : Request string;
  getTermsOfUseAcceptanceRequest : Request JsValue;
  (** [this.stores.loading.isLoading] *)
  isLoading : bool;
  (** routes given to [actions.router.goToRoute.trigger] *)
  goToRoute : list Route
}.

Definition set_getProfileLocaleRequest (r : Request string) (st : Store) : Store :=
  mkStore r (getThemeRequest st) (getCustomThemeRequest st)
          (getTermsOfUseAcceptanceRequest st) (isLoading st) (goToRoute st).

Definition set_getThemeRequest (r : Request string) (st : Store) : Store :=
  mkStore (getProfileLocaleRequest st) r (getCustomThemeRequest st)
          (getTermsOfUseAcceptanceRequest st) (isLoading st) (goToRoute st).

Definition set_getCustomThemeRequest (r : Request string) (st : Store) : Store :=
  mkStore (getProfileLocaleRequest st) (getThemeRequest st) r
          (getTermsOfUseAcceptanceRequest st) (isLoading st) (goToRoute st).

Definition trigger_goToRoute (route : Route) (st : Store) : Store :=
  mkStore (getProfileLocaleRequest st) (getThemeRequest st) (getCustomThemeRequest st)
          (getTermsOfUseAcceptanceRequest st) (isLoading st) (route :: goToRoute st).

(** [x !== null && x !== ''] on a [?string]. *)
Definition notNullNorEmpty (x : option string) : bool :=
  match x with
  | None => false
  | Some s => negb (String.eqb s "")
  end.

(** [x !== null] *)
Definition notNull {T : Type} (x : option T) : bool :=
  match x with
  | None => false
  | Some _ => true
  end.

Definition hasLoadedCurrentLocale (st : Store) : bool :=
  wasExecuted (getProfileLocaleRequest st) && notNull (result (getProfileLocaleRequest st)).

Definition isCurrentLocaleSet (st : Store) : bool :=
  notNullNorEmpty (result (getProfileLocaleRequest st)).

Definition isCurrentThemeSet (st : Store) : bool :=
  notNullNorEmpty (result (getThemeRequest st)).

Definition hasLoadedCurrentTheme (st : Store) : bool :=
  wasExecuted (getThemeRequest st) && notNull (result (getThemeRequest st)).

(** The getter executes the request, then reads its cached result. *)
Definition currentLocale (st : Store) : option string * Store :=
  let st := set_getProfileLocaleRequest (execute (getProfileLocaleRequest st)) st in
  let result := result (getProfileLocaleRequest st) in
  if isCurrentLocaleSet st then (result, st)
  else (Some "en-US", st).

(** What the computed [currentThemeVars] returns: the outcome of
    [JSON.parse], or the module loaded by [require] from a path. *)
Inductive Json : Type :=
| JsonNull
| JsonParseOf (text : string).

Inductive ThemeVars : Type :=
| Parsed (j : Json)
| Required (path : string).

(** [JSON.parse] converts its argument to a string first, so [null]
    becomes the text [null], whose parse is the value [null].  The parse
    of any other text is left symbolic as [JsonParseOf]. *)
Definition ToString (x : option string) : string :=
  match x with
  | None => "null"
  | Some s => s
  end.

Definition JSON_parse (x : option string) : Json :=
  let text := ToString x in
  if String.eqb text "null" then JsonNull else JsonParseOf text.

Definition _convertLocaleKeyToMomentJSLocalKey (localeKey : string) : string :=
  if String.eqb localeKey "zh-Hans" then "zh-cn"
  else if String.eqb localeKey "zh-Hant" then "zh-tw"
  else localeKey.

Definition _redirectToLanguageSelectionIfNoLocaleSet (st : Store) : Store :=
  if negb (isLoading st) && hasLoadedCurrentLocale st && negb (isCurrentLocaleSet st)
  then trigger_goToRoute PROFILE_LANGUAGE_SELECTION st
  else st.

(** The redirect reaction has asked for the language-selection route. *)
Definition redirected (st : Store) : Prop :=
  goToRoute (_redirectToLanguageSelectionIfNoLocaleSet st)
  = PROFILE_LANGUAGE_SELECTION :: goToRoute st.

Section Themes.

(** [THEMES.YOROI_CLASSIC] of [themes/index], whose value is not among
    the sources. *)
Variable YOROI_CLASSIC : string.

Definition currentTheme (st : Store) : option string * Store :=
  let st := set_getThemeRequest (execute (getThemeRequest st)) st in
  let result := result (getThemeRequest st) in
  if isCurrentThemeSet st then (result, st)
  else (Some YOROI_CLASSIC, st).

(** [if (theme)] holds of a string that is neither [null] nor empty. *)
Definition getThemeVars (theme : option string) : ThemeVars :=
  match theme with
  | Some t =>
      if negb (String.eqb t "")
      then Required ("../../themes/prebuilt/" +:+ t +:+ ".js")
      else Required ("../../themes/prebuilt/" +:+ YOROI_CLASSIC +:+ ".js")
  | None => Required ("../../themes/prebuilt/" +:+ YOROI_CLASSIC +:+ ".js")
  end.

(** [result !== ''] on a [?string]: it holds of [null] too. *)
Definition notEmpty (x : option string) : bool :=
  match x with
  | None => true
  | Some s => negb (String.eqb s "")
  end.

Definition currentThemeVars (st : Store) : ThemeVars * Store :=
  let st := set_getCustomThemeRequest (execute (getCustomThemeRequest st)) st in
  let result := result (getCustomThemeRequest st) in
  if notEmpty result then (Parsed (JSON_parse result), st)
  else
    let (theme, st) := currentTheme st in
    (getThemeVars theme, st).

End Themes.

End SettingsStore.

(** ** TransactionsStore *)

Module TransactionsStore.
Import LocalizedRequest.

(** How many transactions to display *)
Definition INITIAL_SEARCH_LIMIT : Z := 5.

(** How many additional transactions to display when the user wants more *)
Definition SEARCH_LIMIT_INCREASE : Z := 5.

(** Skip first n transactions from api *)
Definition SEARCH_SKIP : Z := 0.

(** *** Collaborators *)

(** The api methods a [CachedRequest] of this store wraps. *)
Inductive ApiMethod : Type :=
| refreshTransactions
| refreshPendingTransactions
| getBalance.

(** A [CachedRequest] object.  [rid] is the identity of the object: the
    number of requests created before it.  What is asked of the object
    goes to the call log of the store. *)
Record CachedRequest : Type := mkCachedRequest {
  rid : nat;
  method : ApiMethod
}.

(** Arguments a cached request is executed with. *)
Inductive Args : Type :=
| GetTransactionsRequest (walletId : string) (limit skip : Z)
| WalletIdOnly (walletId : string)
| LastUpdateDate (date : Z).

(** Modelled from the spec: [i18n/LocalizableError] and
    [i18n/global-messages] are not among the sources.  The specification
    tells domain errors (localized, such as the one for no transactions
    found) from all other exceptions, which are wrapped into the generic
    localized unexpected error. *)
Inductive Message : Type :=
| noTransactionsFound
| unexpectedError
| otherMessage (id : string).

(** Modelled from the spec: a domain error is a localized message. *)
Record LocalizableError : Type := mkLocalizableError { message : Message }.

(** Modelled from the spec: [new UnexpectedError()], the generic localized
    unexpected error, itself a [LocalizableError]. *)
Definition UnexpectedError : LocalizableError := mkLocalizableError unexpectedError.

(** A thrown value: an instance of [LocalizableError], or anything else. *)
Inductive Thrown : Type :=
| Localizable (e : LocalizableError)
| NotLocalizable (description : string).

(** How an awaited promise settles. *)
Inductive Settled (T : Type) : Type :=
| Resolved (value : T)
| Rejected (error : Thrown).
Arguments Resolved {T} _.
Arguments Rejected {T} _.

Definition Row : Type := list string.

(** One entry of the call log. *)
Inductive Call : Type :=
| Invalidate (r : CachedRequest)
| Execute (r : CachedRequest) (args : Args)
| GetTxLastUpdatedDate
| UpdateBalance (updatedBalance : Z)
| ExportTransactions (rows : list Row)
| CloseActiveDialog
| LoggerError (error : Thrown).

(** *** The store *)

Record Bundle : Type := mkBundle {
  walletId : string;
  pendingRequest : CachedRequest;
  recentRequest : CachedRequest;
  allRequest : CachedRequest;
  getBalanceRequest : CachedRequest
}.

Record SearchOptions : Type := mkSearchOptions {
  limit : Z;
  skip : Z
}.

Record Store : Type := mkStore {
  transactionsRequests : list Bundle;
  _searchOptionsForWallets : gmap string SearchOptions;
  getTransactionRowsToExportRequest : Request (list Row);
  exportTransactions : Request unit;
  isExporting : bool;
  exportError : option LocalizableError;
  (** id of [wallets.active] of the wallets store, if there is one *)
  active : option string;
  (** ids of [wallets.all] of the wallets store *)
  all : list string;
  (** number of [CachedRequest] objects created so far *)
  created : nat;
  (** callbacks given to [setTimeout] that have not run yet, oldest
      first, each with the rows it captured *)
  timeouts : list (list Row);
  calls : list Call
}.

Definition new : Store :=
  mkStore [] ∅ LocalizedRequest.new LocalizedRequest.new false None None [] 0%nat [] [].

Definition set_transactionsRequests (x : list Bundle) (st : Store) : Store :=
  mkStore x (_searchOptionsForWallets st) (getTransactionRowsToExportRequest st)
    (exportTransactions st) (isExporting st) (exportError st) (active st) (all st)
    (created st) (timeouts st) (calls st).

Definition set_searchOptionsForWallets (x : gmap string SearchOptions) (st : Store) : Store :=
  mkStore (transactionsRequests st) x (getTransactionRowsToExportRequest st)
    (exportTransactions st) (isExporting st) (exportError st) (active st) (all st)
    (created st) (timeouts st) (calls st).

Definition set_getTransactionRowsToExportRequest (x : Request (list Row)) (st : Store) : Store :=
  mkStore (transactionsRequests st) (_searchOptionsForWallets st) x
    (exportTransactions st) (isExporting st) (exportError st) (active st) (all st)
    (created st) (timeouts st) (calls st).

Definition set_exportTransactions (x : Request unit) (st : Store) : Store :=
  mkStore (transactionsRequests st) (_searchOptionsForWallets st)
    (getTransactionRowsToExportRequest st) x (isExporting st) (exportError st)
    (active st) (all st) (created st) (timeouts st) (calls st).

Definition set_isExporting (x : bool) (st : Store) : Store :=
  mkStore (transactionsRequests st) (_searchOptionsForWallets st)
    (getTransactionRowsToExportRequest st) (exportTransactions st) x (exportError st)
    (active st) (all st) (created st) (timeouts st) (calls st).

Definition set_exportError (x : option LocalizableError) (st : Store) : Store :=
  mkStore (transactionsRequests st) (_searchOptionsForWallets st)
    (getTransactionRowsToExportRequest st) (exportTransactions st) (isExporting st) x
    (active st) (all st) (created st) (timeouts st) (calls st).

Definition set_active (x : option string) (st : Store) : Store :=
  mkStore (transactionsRequests st) (_searchOptionsForWallets st)
    (getTransactionRowsToExportRequest st) (exportTransactions st) (isExporting st)
    (exportError st) x (all st) (created st) (timeouts st) (calls st).

Definition set_all (x : list string) (st : Store) : Store :=
  mkStore (transactionsRequests st) (_searchOptionsForWallets st)
    (getTransactionRowsToExportRequest st) (exportTransactions st) (isExporting st)
    (exportError st) (active st) x (created st) (timeouts st) (calls st).

Definition set_created (x : nat) (st : Store) : Store :=
  mkStore (transactionsRequests st) (_searchOptionsForWallets st)
    (getTransactionRowsToExportRequest st) (exportTransactions st) (isExporting st)
    (exportError st) (active st) (all st) x (timeouts st) (calls st).

Definition set_timeouts (x : list (list Row)) (st : Store) : Store :=
  mkStore (transactionsRequests st) (_searchOptionsForWallets st)
    (getTransactionRowsToExportRequest st) (exportTransactions st) (isExporting st)
    (exportError st) (active st) (all st) (created st) x (calls st).

Definition set_calls (x : list Call) (st : Store) : Store :=
  mkStore (transactionsRequests st) (_searchOptionsForWallets st)
    (getTransactionRowsToExportRequest st) (exportTransactions st) (isExporting st)
    (exportError st) (active st) (all st) (created st) (timeouts st) x.

(** *** Methods read and change the store: a state monad *)

Definition M (A : Type) : Type := Store -> A * Store.

Definition ret {A : Type} (a : A) : M A := fun st => (a, st).

Definition bind {A B : Type} (m : M A) (k : A -> M B) : M B :=
  fun st => let (a, st') := m st in k a st'.

Notation "'let!' x ':=' m 'in' k" := (bind m (fun x => k))
  (at level 10, x name, m at level 100, k at level 200).
Notation "m ';;' k" := (bind m (fun _ => k))
  (at level 100, k at level 200, right associativity).

Definition get {A : Type} (field : Store -> A) : M A := fun st => (field st, st).

Definition modify (f : Store -> Store) : M unit := fun st => (tt, f st).

(** The store a method leaves behind. *)
Definition exec {A : Type} (m : M A) (st : Store) : Store := snd (m st).

Definition call (c : Call) : M unit :=
  modify (fun st => set_calls (c :: calls st) st).

(** [array.map(f)] and [for (const x of array)] with a callback that
    changes the store. *)
Fixpoint mapM {A B : Type} (f : A -> M B) (l : list A) : M (list B) :=
  match l with
  | [] => ret []
  | x :: l' =>
      let! y := f x in
      let! ys := mapM f l' in
      ret (y :: ys)
  end.

Fixpoint forM {A : Type} (f : A -> M unit) (l : list A) : M unit :=
  match l with
  | [] => ret tt
  | x :: l' => f x ;; forM f l'
  end.

(** *** Request bundles *)

(** [_.find(bundles, { walletId })]: the first bundle of that wallet. *)
Definition find (id : string) (bundles : list Bundle) : option Bundle :=
  List.find (fun b => String.eqb (walletId b) id) bundles.

(** [new CachedRequest(method)] *)
Definition newCachedRequest (m : ApiMethod) : M CachedRequest :=
  fun st => (mkCachedRequest (created st) m, set_created (S (created st)) st).

Definition _getTransactionsPendingRequest (walletId : string) : M CachedRequest :=
  let! bundles := get transactionsRequests in
  match find walletId bundles with
  | Some foundRequest => ret (pendingRequest foundRequest)
  | None => newCachedRequest refreshPendingTransactions
  end.

Definition _getTransactionsRecentRequest (walletId : string) : M CachedRequest :=
  let! bundles := get transactionsRequests in
  match find walletId bundles with
  | Some foundRequest => ret (recentRequest foundRequest)
  | None => newCachedRequest refreshTransactions
  end.

Definition _getTransactionsAllRequest (walletId : string) : M CachedRequest :=
  let! bundles := get transactionsRequests in
  match find walletId bundles with
  | Some foundRequest => ret (allRequest foundRequest)
  | None => newCachedRequest refreshTransactions
  end.

Definition _getBalanceRequest (walletId : string) : M CachedRequest :=
  let! bundles := get transactionsRequests in
  match find walletId bundles with
  | Some foundRequest => ret (getBalanceRequest foundRequest)
  | None => newCachedRequest getBalance
  end.

(** *** Search options *)

(** Get (or create) the search options for the active wallet (if any).
    The map holds the entries the object [_searchOptionsForWallets] has of
    its own.  The code reads [this._searchOptionsForWallets[wallet.id]],
    which for an id that names a member every object inherits
    ([inheritedMembers] below) finds that member where there is no entry:
    the embedding follows the code for the other ids, the [ordinaryKey]s. *)
Definition searchOptions : M (option SearchOptions) :=
  let! wallet := get active in
  match wallet with
  | None => ret None
  | Some id =>
      let! options := get (fun st => _searchOptionsForWallets st !! id) in
      match options with
      | Some o => ret (Some o)
      | None =>
          modify (fun st =>
            set_searchOptionsForWallets
              (<[id := mkSearchOptions INITIAL_SEARCH_LIMIT SEARCH_SKIP]>
                 (_searchOptionsForWallets st)) st) ;;
          get (fun st => _searchOptionsForWallets st !! id)
      end
  end.

(** [this.searchOptions ? this.searchOptions.field : initial]: the getter
    is read for the test and, when it returned options, read again for the
    field.  The second read returns the options the first one did, so its
    [null] case does not arise. *)
Definition searchOptions_or {A : Type} (field : SearchOptions -> A) (initial : A) : M A :=
  let! test := searchOptions in
  match test with
  | Some _ =>
      let! options := searchOptions in
      match options with
      | Some o => ret (field o)
      | None => ret initial
      end
  | None => ret initial
  end.

(** The loop body of [_refreshTransactionData], up to the promise chain. *)
Definition _refreshTransactionData_wallet (wallet : string) : M unit :=
  let! limit := searchOptions_or limit INITIAL_SEARCH_LIMIT in
  let! skip := searchOptions_or skip SEARCH_SKIP in
  let! recentRequest := _getTransactionsRecentRequest wallet in
  call (Invalidate recentRequest) ;;
  call (Execute recentRequest (GetTransactionsRequest wallet limit skip)) ;;
  let! allRequest := _getTransactionsAllRequest wallet in
  call (Invalidate allRequest) ;;
  call (Execute allRequest (WalletIdOnly wallet)).

(** Refresh transaction data for all wallets. *)
Definition _refreshTransactionData : M unit :=
  let! allWallets := get all in
  forM _refreshTransactionData_wallet allWallets.

(** The first [then] callback of the chain on [allRequest.promise], up to
    its [await]. *)
Definition _refreshTransactionData_thenAll (wallet : string) : M unit :=
  let! pendingRequest := _getTransactionsPendingRequest wallet in
  call (Invalidate pendingRequest) ;;
  call (Execute pendingRequest (WalletIdOnly wallet)) ;;
  call GetTxLastUpdatedDate.

(** The same callback from its [await] on. *)
Definition _refreshTransactionData_thenDate (wallet : string) (lastUpdateDate : Z) : M unit :=
  let! balanceRequest := _getBalanceRequest wallet in
  call (Execute balanceRequest (LastUpdateDate lastUpdateDate)).

(** The second [then] callback. *)
Definition _refreshTransactionData_thenBalance (wallet : string) (updatedBalance : Z) : M unit :=
  let! a := get active in
  match a with
  | Some id => if String.eqb id wallet then call (UpdateBalance updatedBalance) else ret tt
  | None => ret tt
  end.

(** The limit is a JavaScript number; the sum is the integer sum as long as
    it is at most 2^53 ([exactSum] below), beyond which doubles round. *)
Definition _increaseSearchLimit : M unit :=
  let! options := searchOptions in
  match options with
  | Some _ =>
      (* [this.searchOptions.limit += ...]: the object the getter returns
         is the entry of the active wallet *)
      let! options := searchOptions in
      let! wallet := get active in
      match options, wallet with
      | Some o, Some id =>
          modify (fun st =>
            set_searchOptionsForWallets
              (<[id := mkSearchOptions (limit o + SEARCH_LIMIT_INCREASE) (skip o)]>
                 (_searchOptionsForWallets st)) st)
      | _, _ => ret tt
      end ;;
      _refreshTransactionData
  | None => ret tt
  end.

(** Update which walletIds to track and refresh the data. *)
Definition updateObservedWallets_bundle (walletId : string) : M Bundle :=
  let! recentRequest := _getTransactionsRecentRequest walletId in
  let! allRequest := _getTransactionsAllRequest walletId in
  let! getBalanceRequest := _getBalanceRequest walletId in
  let! pendingRequest := _getTransactionsPendingRequest walletId in
  ret (mkBundle walletId pendingRequest recentRequest allRequest getBalanceRequest).

Definition updateObservedWallets (walletIds : list string) : M unit :=
  let! bundles := mapM updateObservedWallets_bundle walletIds in
  modify (set_transactionsRequests bundles) ;;
  _refreshTransactionData.

(** *** Export *)

Definition _setExporting (isExporting : bool) : M unit :=
  modify (set_isExporting isExporting).

Definition _setExportError (error : option LocalizableError) : M unit :=
  modify (set_exportError error).

Definition getTransactionRowsToExportRequest_reset : M unit :=
  modify (fun st =>
    set_getTransactionRowsToExportRequest (reset (getTransactionRowsToExportRequest st)) st).

Definition exportTransactions_reset : M unit :=
  modify (fun st => set_exportTransactions (reset (exportTransactions st)) st).

(** [_exportTransactionsToFile] up to its [await]. *)
Definition _exportTransactionsToFile_start {P : Type} (params : P) : M unit :=
  _setExporting true ;;
  getTransactionRowsToExportRequest_reset ;;
  exportTransactions_reset ;;
  modify (fun st =>
    set_getTransactionRowsToExportRequest (execute (getTransactionRowsToExportRequest st)) st).

Definition _exportTransactionsToFile_catch (error : Thrown) : M unit :=
  (* [error instanceof LocalizableError] *)
  let localizableError :=
    match error with
    | Localizable e => e
    | NotLocalizable _ => UnexpectedError
    end in
  _setExportError (Some localizableError) ;;
  _setExporting false ;;
  call (LoggerError error).

Definition _exportTransactionsToFile_finally : M unit :=
  getTransactionRowsToExportRequest_reset ;;
  exportTransactions_reset.

(** [respTxRows == null || respTxRows.length < 1] *)
Definition noRows (respTxRows : option (list Row)) : bool :=
  match respTxRows with
  | None => true
  | Some rows => (Z.of_nat (length rows) <? 1)
  end.

(** [_exportTransactionsToFile] from its [await] on: the promise of the
    row request has settled. *)
Definition _exportTransactionsToFile_resume (settled : Settled (option (list Row))) : M unit :=
  match settled with
  | Resolved respTxRows =>
      modify (fun st =>
        set_getTransactionRowsToExportRequest
          (settle respTxRows (getTransactionRowsToExportRequest st)) st) ;;
      if noRows respTxRows
      then _exportTransactionsToFile_catch
             (Localizable (mkLocalizableError noTransactionsFound))
      else
        (* [setTimeout(callback, 800)] *)
        modify (fun st => set_timeouts (timeouts st ++ [default [] respTxRows]) st)
  | Rejected error =>
      modify (fun st =>
        set_getTransactionRowsToExportRequest (fail (getTransactionRowsToExportRequest st)) st) ;;
      _exportTransactionsToFile_catch error
  end ;;
  _exportTransactionsToFile_finally.

(** One call of [_exportTransactionsToFile], until its promise settles. *)
Definition _exportTransactionsToFile {P : Type} (params : P)
    (settled : Settled (option (list Row))) : M unit :=
  _exportTransactionsToFile_start params ;;
  _exportTransactionsToFile_resume settled.

(** The oldest callback given to [setTimeout] runs, up to its [await].
    Tells whether there was one. *)
Definition callback_start : M bool :=
  let! pending := get timeouts in
  match pending with
  | [] => ret false
  | respTxRows :: rest =>
      modify (set_timeouts rest) ;;
      modify (fun st => set_exportTransactions (execute (exportTransactions st)) st) ;;
      call (ExportTransactions respTxRows) ;;
      ret true
  end.

(** The callback from its [await] on.  When the promise is rejected the
    callback ends there: nothing around it catches the rejection. *)
Definition callback_resume (settled : Settled unit) : M unit :=
  match settled with
  | Resolved v =>
      modify (fun st => set_exportTransactions (settle (Some v) (exportTransactions st)) st) ;;
      _setExporting false ;;
      call CloseActiveDialog
  | Rejected _ =>
      modify (fun st => set_exportTransactions (fail (exportTransactions st)) st)
  end.

(** The delayed part of an export: the callback runs and the file export
    settles. *)
Definition callback (settled : Settled unit) : M unit :=
  let! ran := callback_start in
  if ran then callback_resume settled else ret tt.

Definition _closeExportTransactionDialog : M unit :=
  let! isExporting := get isExporting in
  if negb isExporting
  then
    call CloseActiveDialog ;;
    _setExporting false ;;
    _setExportError None
  else ret tt.

(** *** Everything that can happen to the store *)

Inductive Op : Type :=
| LoadMoreTransactions
| ExportTransactionsToFile_start
| ExportTransactionsToFile_resume (settled : Settled (option (list Row)))
| Callback_start
| Callback_resume (settled : Settled unit)
| CloseExportTransactionDialog
| UpdateObservedWallets (walletIds : list string)
| RefreshTransactionData
| ThenAll (wallet : string)
| ThenDate (wallet : string) (lastUpdateDate : Z)
| ThenBalance (wallet : string) (updatedBalance : Z)
| ReadSearchOptions
| WalletsActive (wallet : option string)
| WalletsAll (wallets : list string).

Definition step (op : Op) : M unit :=
  match op with
  | LoadMoreTransactions => _increaseSearchLimit
  | ExportTransactionsToFile_start => _exportTransactionsToFile_start tt
  | ExportTransactionsToFile_resume settled => _exportTransactionsToFile_resume settled
  | Callback_start => callback_start ;; ret tt
  | Callback_resume settled => callback_resume settled
  | CloseExportTransactionDialog => _closeExportTransactionDialog
  | UpdateObservedWallets walletIds => updateObservedWallets walletIds
  | RefreshTransactionData => _refreshTransactionData
  | ThenAll wallet => _refreshTransactionData_thenAll wallet
  | ThenDate wallet lastUpdateDate => _refreshTransactionData_thenDate wallet lastUpdateDate
  | ThenBalance wallet updatedBalance => _refreshTransactionData_thenBalance wallet updatedBalance
  | ReadSearchOptions => searchOptions ;; ret tt
  | WalletsActive wallet => modify (set_active wallet)
  | WalletsAll wallets => modify (set_all wallets)
  end.

Definition run (ops : list Op) : M unit := forM step ops.

(** A call of [_exportTransactionsToFile] with the operations [ops] taking
    place on the store while the row request is in flight. *)
Definition _exportTransactionsToFile_among {P : Type} (params : P) (ops : list Op)
    (settled : Settled (option (list Row))) : M unit :=
  _exportTransactionsToFile_start params ;;
  run ops ;;
  _exportTransactionsToFile_resume settled.

(** *** Notions the properties are stated with *)

(** The members every JavaScript object inherits from [Object.prototype]. *)
Definition inheritedMembers : list string :=
  ["constructor"; "__proto__"; "hasOwnProperty"; "isPrototypeOf";
   "propertyIsEnumerable"; "toLocaleString"; "toString"; "valueOf";
   "__defineGetter__"; "__defineSetter__"; "__lookupGetter__";
   "__lookupSetter__"]%string.

(** A wallet id that names none of them: a read of the object of search
    options at such an id finds an entry of the object or nothing. *)
Definition ordinaryKey (id : string) : bool :=
  negb (existsb (String.eqb id) inheritedMembers).

(** The active wallet, if there is one, has such an id. *)
Definition ordinaryActive (st : Store) : Prop :=
  match active st with
  | Some id => ordinaryKey id = true
  | None => True
  end.

(** An integer sum that a double holds exactly. *)
Definition exactSum (a b : Z) : Prop := a + b <= 2 ^ 53.

(** The bundles are the same and no request object was forgotten. *)
Definition bundlesAge (st st' : Store) : Prop :=
  transactionsRequests st' = transactionsRequests st
  /\ (created st <= created st')%nat.

(** Every run of [m] relates the store before to the store after. *)
Definition keeps (R : Store -> Store -> Prop) {A : Type} (m : M A) : Prop :=
  forall st, R st (exec m st).

Definition sameBundles (st st' : Store) : Prop :=
  transactionsRequests st' = transactionsRequests st.

(** No search options are lost and no limit goes down. *)
Definition limitsGrow (st st' : Store) : Prop :=
  forall id o, _searchOptionsForWallets st !! id = Some o ->
  exists o', _searchOptionsForWallets st' !! id = Some o' /\ limit o <= limit o'.

(** The active wallet, if there is one, has its search options. *)
Definition hasOptions (st : Store) : Prop :=
  match active st with
  | None => True
  | Some id => is_Some (_searchOptionsForWallets st !! id)
  end.

Definition optionsKept (st st' : Store) : Prop :=
  hasOptions st ->
  hasOptions st' /\ active st' = active st
  /\ _searchOptionsForWallets st' = _searchOptionsForWallets st.

(** The limit and skip the getter [searchOptions] reports, or the initial
    ones when no wallet is active. *)
Definition limitAndSkip (st : Store) : Z * Z :=
  match fst (searchOptions st) with
  | Some o => (limit o, skip o)
  | None => (INITIAL_SEARCH_LIMIT, SEARCH_SKIP)
  end.

(** The bundles of a wallet id, and the occurrences of an id in a list. *)
Definition bundlesOf (id : string) (bundles : list Bundle) : list Bundle :=
  List.filter (fun b => String.eqb (walletId b) id) bundles.

Definition occurrences (id : string) (walletIds : list string) : list string :=
  List.filter (fun w => String.eqb w id) walletIds.

Definition requestsOf (b : Bundle) : list CachedRequest :=
  [recentRequest b; allRequest b; getBalanceRequest b; pendingRequest b].

(** Every request of a bundle is one of the requests created so far. *)
Definition createdBefore (st : Store) : Prop :=
  forall b r, In b (transactionsRequests st) -> In r (requestsOf b) ->
              (rid r < created st)%nat.

(** A bundle made by [updateObservedWallets]: its requests are those of
    the first bundle of the same wallet among [old] when there is one, and
    otherwise requests created after the first [c] ones. *)
Definition keptOrCreated (old : list Bundle) (c : nat) (b : Bundle) : Prop :=
  match find (walletId b) old with
  | Some found => requestsOf b = requestsOf found
  | None =>
      Forall (fun r => (c <= rid r)%nat) (requestsOf b)
      /\ NoDup (List.map rid (requestsOf b))
      /\ List.map method (requestsOf b)
         = [refreshTransactions; refreshTransactions; getBalance;
            refreshPendingTransactions]
  end.

End TransactionsStore.

(** ** SettingsStore: the reactions and the terms of use *)

Module SettingsReactions.
Import LocalizedRequest SettingsStore.

Definition set_getTermsOfUseAcceptanceRequest (r : Request JsValue) (st : Store) : Store :=
  mkStore (getProfileLocaleRequest st) (getThemeRequest st) (getCustomThemeRequest st)
          r (isLoading st) (goToRoute st).

Definition hasLoadedTermsOfUseAcceptance (st : Store) : bool :=
  wasExecuted (getTermsOfUseAcceptanceRequest st)
  && notNull (result (getTermsOfUseAcceptanceRequest st)).

(** [result === true] *)
Definition areTermsOfUseAccepted (st : Store) : bool :=
  match result (getTermsOfUseAcceptanceRequest st) with
  | Some (JsBool true) => true
  | _ => false
  end.

Definition _getTermsOfUseAcceptance (st : Store) : Store :=
  set_getTermsOfUseAcceptanceRequest (execute (getTermsOfUseAcceptanceRequest st)) st.

(** The reaction calls [moment.locale] with a key: the key is returned
    here, with the store the read of [currentLocale] leaves.  The switch
    of [_convertLocaleKeyToMomentJSLocalKey] passes [null] through. *)
Definition _updateMomentJsLocaleAfterLocaleChange (st : Store) : option string * Store :=
  let (locale, st) := currentLocale st in
  (match locale with
   | Some localeKey => Some (_convertLocaleKeyToMomentJSLocalKey localeKey)
   | None => None
   end, st).

Definition _reloadAboutWindowOnLocaleChange (st : Store) : Store :=
  snd (currentLocale st).

Definition _redirectToTermsOfUseScreenIfTermsNotAccepted (st : Store) : Store :=
  if isCurrentLocaleSet st && hasLoadedTermsOfUseAcceptance st
     && negb (areTermsOfUseAccepted st)
  then trigger_goToRoute PROFILE_TERMS_OF_USE st
  else st.

Definition _redirectToRoot (st : Store) : Store :=
  trigger_goToRoute WALLETS_ROOT st.

(** [this.stores.app.currentRoute]: one of the routes the store names, or
    another one. *)
Inductive CurrentRoute : Type :=
| At (route : Route)
| Elsewhere.

Definition _isOnTermsOfUsePage (currentRoute : CurrentRoute) : bool :=
  match currentRoute with
  | At PROFILE_TERMS_OF_USE => true
  | _ => false
  end.

Definition _redirectToMainUiAfterTermsAreAccepted (currentRoute : CurrentRoute)
    (st : Store) : Store :=
  if areTermsOfUseAccepted st && _isOnTermsOfUsePage currentRoute
  then _redirectToRoot st
  else st.

End SettingsReactions.

(** ** TransactionsStore: the computed views and the promise chain *)

Module TransactionsViews.
Import LocalizedRequest TransactionsStore.

(** The promise chain [_refreshTransactionData] hangs on
    [allRequest.promise] for one wallet, with every promise resolved, up to
    the moment the balance arrives: the first callback runs to its [await],
    then resumes with the date.  While the chain waits, other operations
    take place on the store: [ops1] before the date arrives, [ops2] before
    the balance does. *)
Definition _refreshTransactionData_chain_awaiting (wallet : string)
    (ops1 : list Op) (date : Z) (ops2 : list Op) : M unit :=
  _refreshTransactionData_thenAll wallet ;;
  run ops1 ;;
  _refreshTransactionData_thenDate wallet date ;;
  run ops2.

(** The same chain to its end: the second callback runs with the balance. *)
Definition _refreshTransactionData_chain (wallet : string)
    (ops1 : list Op) (date : Z) (ops2 : list Op) (balance : Z) : M unit :=
  _refreshTransactionData_chain_awaiting wallet ops1 date ops2 ;;
  _refreshTransactionData_thenBalance wallet balance.

(** The calls the loop body makes for a wallet, with the requests [r1]
    and [r2] as its recent and its all request. *)
Definition refreshCalls (wallet : string) (l s : Z) (r1 r2 : CachedRequest) : list Call :=
  [Execute r2 (WalletIdOnly wallet); Invalidate r2;
   Execute r1 (GetTransactionsRequest wallet l s); Invalidate r1].

(** The wallets executed with search options in a call log, oldest first,
    each with the request that was executed. *)
Definition recentExecutes (log : list Call) : list (string * CachedRequest) :=
  flat_map (fun c =>
              match c with
              | Execute r (GetTransactionsRequest w _ _) => [(w, r)]
              | _ => []
              end) (rev log).

(** The wallets executed without search options by [_refreshTransactionData]
    (their all request), oldest first. *)
Definition allExecutes (log : list Call) : list (string * CachedRequest) :=
  flat_map (fun c =>
              match c with
              | Execute r (WalletIdOnly w) => [(w, r)]
              | _ => []
              end) (rev log).

(** The wallets store and the search options are the same. *)
Definition sameWallets (st st' : Store) : Prop :=
  active st' = active st /\ all st' = all st
  /\ _searchOptionsForWallets st' = _searchOptionsForWallets st.

(** The wallets store is the same. *)
Definition sameWalletsStore (st st' : Store) : Prop :=
  active st' = active st /\ all st' = all st.

(** The export state is the same. *)
Definition sameExport (st st' : Store) : Prop :=
  isExporting st' = isExporting st /\ exportError st' = exportError st
  /\ timeouts st' = timeouts st
  /\ getTransactionRowsToExportRequest st' = getTransactionRowsToExportRequest st
  /\ exportTransactions st' = exportTransactions st.

(** What the export does not reach: bundles, request objects, search
    options and the wallets store. *)
Definition sameTracking (st st' : Store) : Prop :=
  transactionsRequests st' = transactionsRequests st /\ created st' = created st
  /\ sameWallets st st'.

(** Every search options object was made with the initial limit and skip
    and has only had its limit raised, by whole increases. *)
Definition optionsWellFormed (st : Store) : Prop :=
  forall id o, _searchOptionsForWallets st !! id = Some o ->
    skip o = SEARCH_SKIP
    /\ exists n : nat, limit o = INITIAL_SEARCH_LIMIT + Z.of_nat n * SEARCH_LIMIT_INCREASE.

Definition keepsWellFormed (st st' : Store) : Prop :=
  optionsWellFormed st -> optionsWellFormed st'.

(** The operations of the export, and the others. *)
Definition isExportOp (op : Op) : bool :=
  match op with
  | ExportTransactionsToFile_start
  | ExportTransactionsToFile_resume _
  | Callback_start
  | Callback_resume _
  | CloseExportTransactionDialog => true
  | _ => false
  end.

Section Views.

Variable WalletTransaction : Type.

(** The response of the transactions api, of which the views read
    [transactions]. *)
Record GetTransactionsResponse : Type := mkGetTransactionsResponse {
  transactions : list WalletTransaction
}.

(** Modelled from the spec: the cached [result] of each request object
    there is ([result: T|null]); of the pending request the views read the
    [length], so its result is an array. *)
Variable result : CachedRequest -> option GetTransactionsResponse.
Variable pendingResult : CachedRequest -> option (list WalletTransaction).

(** The result of a request a getter returned, where [before] requests
    existed before the getter was called: a request the getter has just
    created has no result. *)
Definition cached {T : Type} (results : CachedRequest -> option T)
    (before : nat) (r : CachedRequest) : option T :=
  if (rid r <? before)%nat then results r else None.

(** The views are [@computed]: MobX may hand out the value of an earlier
    computation while nothing the view read has changed.  Each definition
    is one computation of the view. *)
Definition recent : M (list WalletTransaction) :=
  let! wallet := get active in
  match wallet with
  | None => ret []
  | Some id =>
      let! before := get created in
      let! request := _getTransactionsRecentRequest id in
      match cached result before request with
      | Some res => ret (transactions res)
      | None => ret []
      end
  end.

Definition hasAny : M bool :=
  let! wallet := get active in
  match wallet with
  | None => ret false
  | Some id =>
      let! before := get created in
      let! request := _getTransactionsRecentRequest id in
      match cached result before request with
      | Some res => ret (Z.of_nat (length (transactions res)) >? 0)
      | None => ret false
      end
  end.

Definition totalAvailable : M Z :=
  let! wallet := get active in
  match wallet with
  | None => ret 0
  | Some id =>
      let! before := get created in
      let! request := _getTransactionsAllRequest id in
      match cached result before request with
      | Some res => ret (Z.of_nat (length (transactions res)))
      | None => ret 0
      end
  end.

(** The store with the field [_hasAnyPending], which only the view
    [hasAnyPending] uses. *)
Record Views : Type := mkViews {
  store : Store;
  _hasAnyPending : bool
}.

Definition hasAnyPending (v : Views) : bool * Views :=
  match active (store v) with
  | None => (false, v)
  | Some id =>
      let (request, st) := _getTransactionsPendingRequest id (store v) in
      match cached pendingResult (created (store v)) request with
      | Some res =>
          let pending := (Z.of_nat (length res) >? 0) in
          (pending, mkViews st pending)
      | None => (_hasAnyPending v, mkViews st (_hasAnyPending v))
      end
  end.

End Views.

End TransactionsViews.

(** ** Properties of SettingsStore *)

Section SettingsStoreProperties.
Import LocalizedRequest SettingsStore.

Lemma cons_neq {A : Type} (x : A) (l : list A) : l <> x :: l.
Proof.
  intros H. apply (f_equal (@length A)) in H. simpl in H. lia.
Qed.

Lemma redirect_cases (st : Store) :
  (negb (isLoading st) && hasLoadedCurrentLocale st && negb (isCurrentLocaleSet st) = true
   /\ _redirectToLanguageSelectionIfNoLocaleSet st
      = trigger_goToRoute PROFILE_LANGUAGE_SELECTION st)
  \/ (negb (isLoading st) && hasLoadedCurrentLocale st && negb (isCurrentLocaleSet st) = false
      /\ _redirectToLanguageSelectionIfNoLocaleSet st = st).
Proof.
  unfold _redirectToLanguageSelectionIfNoLocaleSet.
  destruct (negb (isLoading st) && hasLoadedCurrentLocale st && negb (isCurrentLocaleSet st));
    [left | right]; split; reflexivity.
Qed.

Lemma loaded_and_unset (st : Store) :
  hasLoadedCurrentLocale st && negb (isCurrentLocaleSet st) = true
  <-> wasExecuted (getProfileLocaleRequest st) = true
      /\ result (getProfileLocaleRequest st) = Some "".
Proof.
  unfold hasLoadedCurrentLocale, isCurrentLocaleSet, notNull, notNullNorEmpty.
  destruct (wasExecuted (getProfileLocaleRequest st));
    destruct (result (getProfileLocaleRequest st)) as [s|]; simpl.
  - destruct (String.eqb_spec s ""); simpl; split.
    + intros _. subst. split; reflexivity.
    + reflexivity.
    + discriminate.
    + intros [_ H]. congruence.
  - split; [discriminate | intros [_ H]; discriminate].
  - split; [discriminate | intros [H _]; discriminate].
  - split; [discriminate | intros [H _]; discriminate].
Qed.

(** C4, as the claim states it, fails: with the locale read completed and
    the locale unset the reaction still stays silent while the application
    is loading. *)
Lemma redirect_not_while_loading :
  ~ (redirected (mkStore (mkRequest (Some "") true false) new new new true [])
     <-> hasLoadedCurrentLocale
           (mkStore (mkRequest (Some "") true false) new new new true []) = true
         /\ isCurrentLocaleSet
              (mkStore (mkRequest (Some "") true false) new new new true []) = false).
Proof.
  intros [_ H].
  assert (Hr : redirected (mkStore (mkRequest (Some "") true false) new new new true []))
    by (apply H; split; reflexivity).
  unfold redirected in Hr. vm_compute in Hr. discriminate.
Qed.

(** C4, amended: the reaction asks for the language-selection route if and
    only if the application is not loading, the locale read has completed
    and the locale is unset, which comes to: the read was executed and its
    result is the empty string.  Otherwise it leaves the store as it is; in
    particular it does so while the locale read has not completed. *)
Theorem redirectToLanguageSelection_iff (st : Store) :
  (redirected st
   <-> isLoading st = false
       /\ hasLoadedCurrentLocale st = true /\ isCurrentLocaleSet st = false)
  /\ (redirected st
      <-> isLoading st = false
          /\ wasExecuted (getProfileLocaleRequest st) = true
          /\ result (getProfileLocaleRequest st) = Some "")
  /\ (~ redirected st -> _redirectToLanguageSelectionIfNoLocaleSet st = st)
  /\ (hasLoadedCurrentLocale st = false -> ~ redirected st).
Proof.
  assert (Hmain : redirected st
    <-> isLoading st = false
        /\ hasLoadedCurrentLocale st = true /\ isCurrentLocaleSet st = false).
  { unfold redirected.
    destruct (redirect_cases st) as [[Hc ->] | [Hc ->]].
    - simpl. split; [intros _ | reflexivity].
      destruct (isLoading st), (hasLoadedCurrentLocale st), (isCurrentLocaleSet st);
        simpl in Hc; try discriminate. repeat split.
    - split.
      + intros H. exfalso. exact (cons_neq _ _ H).
      + intros (H1 & H2 & H3). rewrite H1, H2, H3 in Hc. discriminate. }
  split; [exact Hmain |]. split; [| split].
  - rewrite Hmain. rewrite <- loaded_and_unset.
    rewrite andb_true_iff, negb_true_iff. tauto.
  - intros Hn. destruct (redirect_cases st) as [[Hc He] | [Hc He]]; [| exact He].
    exfalso. apply Hn. unfold redirected. rewrite He. reflexivity.
  - intros Hl Hr. apply Hmain in Hr. destruct Hr as (_ & H & _). congruence.
Qed.

Lemma redirectToLanguageSelection_iff_witness :
  _redirectToLanguageSelectionIfNoLocaleSet
    (mkStore (mkRequest None false true) new new new false [])
  = mkStore (mkRequest None false true) new new new false [].
Proof.
  destruct (redirectToLanguageSelection_iff
              (mkStore (mkRequest None false true) new new new false []))
    as (_ & _ & H & Hp).
  apply H. apply Hp. reflexivity.
Defined.

(** C7: when the cached result of the locale request is [null] or the
    empty string, [currentLocale] is the default ['en-US']; when that of
    the theme request is, [currentTheme] is the default theme
    [THEMES.YOROI_CLASSIC].  Neither returns the cached value. *)
Theorem currentLocale_currentTheme_default (YOROI_CLASSIC : string) (st : Store) :
  (result (getProfileLocaleRequest st) = None
   \/ result (getProfileLocaleRequest st) = Some ""
   -> fst (currentLocale st) = Some "en-US"
      /\ fst (currentLocale st) <> result (getProfileLocaleRequest st))
  /\ (result (getThemeRequest st) = None
      \/ result (getThemeRequest st) = Some ""
      -> fst (currentTheme YOROI_CLASSIC st) = Some YOROI_CLASSIC).
Proof.
  split.
  - intros H. unfold currentLocale, isCurrentLocaleSet. simpl.
    destruct H as [-> | ->]; simpl; split; congruence.
  - intros H. unfold currentTheme, isCurrentThemeSet. simpl.
    destruct H as [-> | ->]; reflexivity.
Qed.

Lemma currentLocale_currentTheme_default_witness :
  fst (currentLocale (mkStore (mkRequest (Some "") true false) new new new false []))
  = Some "en-US"
  /\ fst (currentTheme "YoroiClassic"
            (mkStore (mkRequest (Some "") true false) new new new false []))
     = Some "YoroiClassic".
Proof.
  destruct (currentLocale_currentTheme_default "YoroiClassic"
              (mkStore (mkRequest (Some "") true false) new new new false []))
    as [Hl Ht].
  split.
  - apply Hl. right. reflexivity.
  - apply Ht. left. reflexivity.
Defined.

(** C10: when the cached result of the custom-theme request is [null],
    [currentThemeVars] is [JSON.parse(null)], which is [null], and not
    prebuilt theme variables; it is the prebuilt variables of the current
    theme exactly when the cached result is the empty string. *)
Theorem currentThemeVars_null (YOROI_CLASSIC : string) (st : Store) :
  (result (getCustomThemeRequest st) = None
   -> fst (currentThemeVars YOROI_CLASSIC st) = Parsed (JSON_parse None)
      /\ JSON_parse None = JsonNull)
  /\ ((exists path, fst (currentThemeVars YOROI_CLASSIC st) = Required path)
      <-> result (getCustomThemeRequest st) = Some "")
  /\ (result (getCustomThemeRequest st) = Some ""
      -> fst (currentThemeVars YOROI_CLASSIC st)
         = getThemeVars YOROI_CLASSIC (fst (currentTheme YOROI_CLASSIC st))).
Proof.
  assert (Hreq : forall theme, exists path, getThemeVars YOROI_CLASSIC theme = Required path).
  { intros [t|]; simpl; [destruct (negb (t =? "")%string) |]; eexists; reflexivity. }
  unfold currentThemeVars. simpl.
  destruct (result (getCustomThemeRequest st)) as [s|] eqn:Hres; simpl.
  - destruct (String.eqb_spec s ""); simpl.
    + subst s. split; [discriminate |].
      destruct (currentTheme YOROI_CLASSIC _) as [theme st'] eqn:Hth. simpl.
      split; [split; [reflexivity | intros _; apply Hreq] |].
      intros _. f_equal.
      apply (f_equal fst) in Hth. simpl in Hth. subst theme.
      unfold currentTheme, isCurrentThemeSet. simpl.
      destruct (notNullNorEmpty _); reflexivity.
    + split; [discriminate |]. split.
      * split; [intros [p Hp]; discriminate | intros H; congruence].
      * intros H. congruence.
  - split; [intros _; split; reflexivity |]. split.
    + split; [intros [p Hp]; discriminate | discriminate].
    + discriminate.
Qed.

Lemma currentThemeVars_null_witness :
  fst (currentThemeVars "YoroiClassic"
         (mkStore new new (mkRequest None true false) new false []))
  = Parsed JsonNull.
Proof.
  destruct (currentThemeVars_null "YoroiClassic"
              (mkStore new new (mkRequest None true false) new false []))
    as ([H1 H2] & _).
  - reflexivity.
  - rewrite H1. rewrite H2. reflexivity.
Defined.

End SettingsStoreProperties.

(** ** Properties of TransactionsStore *)

Section Keeps.
Import TransactionsStore.

Context (R : Store -> Store -> Prop) `{!PreOrder R}.

Lemma exec_bind {A B : Type} (m : M A) (k : A -> M B) (st : Store) :
  exec (bind m k) st = exec (k (fst (m st))) (exec m st).
Proof. unfold exec, bind. destruct (m st). reflexivity. Qed.

Lemma fst_bind {A B : Type} (m : M A) (k : A -> M B) (st : Store) :
  fst (bind m k st) = fst (k (fst (m st)) (exec m st)).
Proof. unfold exec, bind. destruct (m st). reflexivity. Qed.

Lemma keeps_ret {A : Type} (a : A) : keeps R (ret a).
Proof. intros st. reflexivity. Qed.

Lemma keeps_get {A : Type} (field : Store -> A) : keeps R (get field).
Proof. intros st. reflexivity. Qed.

Lemma keeps_bind {A B : Type} (m : M A) (k : A -> M B) :
  keeps R m -> (forall a, keeps R (k a)) -> keeps R (bind m k).
Proof.
  intros Hm Hk st. rewrite exec_bind.
  transitivity (exec m st); [apply Hm | apply Hk].
Qed.

Lemma keeps_modify (f : Store -> Store) :
  (forall st, R st (f st)) -> keeps R (modify f).
Proof. intros H st. apply H. Qed.

Lemma keeps_forM {A : Type} (f : A -> M unit) (l : list A) :
  (forall a, keeps R (f a)) -> keeps R (forM f l).
Proof.
  intros Hf. induction l as [|x l IH]; simpl.
  - apply keeps_ret.
  - apply keeps_bind; [apply Hf | intros _; exact IH].
Qed.

Lemma keeps_mapM {A B : Type} (f : A -> M B) (l : list A) :
  (forall a, keeps R (f a)) -> keeps R (mapM f l).
Proof.
  intros Hf. induction l as [|x l IH]; simpl.
  - apply keeps_ret.
  - apply keeps_bind; [apply Hf | intros y].
    apply keeps_bind; [exact IH | intros ys; apply keeps_ret].
Qed.

End Keeps.

(** Walks down a method to the places where it changes the store. *)
Ltac keeps_walk :=
  repeat match goal with
    | |- TransactionsStore.keeps _ (TransactionsStore.ret _) =>
        apply keeps_ret; typeclasses eauto
    | |- TransactionsStore.keeps _ (TransactionsStore.get _) =>
        apply keeps_get; typeclasses eauto
    | |- TransactionsStore.keeps _ (TransactionsStore.bind _ _) =>
        apply keeps_bind; [typeclasses eauto | | intros ?]
    | |- TransactionsStore.keeps _ (TransactionsStore.forM _ _) =>
        apply keeps_forM; [typeclasses eauto | intros ?]
    | |- TransactionsStore.keeps _ (TransactionsStore.mapM _ _) =>
        apply keeps_mapM; [typeclasses eauto | intros ?]
    | |- TransactionsStore.keeps _ (TransactionsStore.modify _) =>
        apply keeps_modify; intros ?
    | |- TransactionsStore.keeps _ (match ?x with _ => _ end) => destruct x
    end.

Section TransactionsStoreProperties.
Import LocalizedRequest TransactionsStore.

#[local] Instance sameBundles_preorder : PreOrder sameBundles.
Proof.
  split.
  - intros st. reflexivity.
  - intros a b c Hab Hbc. unfold sameBundles in *. congruence.
Qed.

#[local] Instance limitsGrow_preorder : PreOrder limitsGrow.
Proof.
  split.
  - intros st id o H. exists o. split; [exact H | lia].
  - intros a b c Hab Hbc id o H.
    destruct (Hab id o H) as (o1 & H1 & Hle1).
    destruct (Hbc id o1 H1) as (o2 & H2 & Hle2).
    exists o2. split; [exact H2 | lia].
Qed.

#[local] Instance optionsKept_preorder : PreOrder optionsKept.
Proof.
  split.
  - intros st H. auto.
  - intros a b c Hab Hbc H.
    destruct (Hab H) as (Hb & Ha1 & Hm1).
    destruct (Hbc Hb) as (Hc & Ha2 & Hm2).
    repeat split; [exact Hc | congruence | congruence].
Qed.

(** **** Request getters *)

Lemma newCachedRequest_sameBundles (m : ApiMethod) : keeps sameBundles (newCachedRequest m).
Proof. intros st. reflexivity. Qed.


Lemma optionsKept_same (st st' : Store) :
  active st' = active st ->
  _searchOptionsForWallets st' = _searchOptionsForWallets st ->
  optionsKept st st'.
Proof.
  intros Ha Hm H. unfold hasOptions in *. rewrite Ha, Hm. auto.
Qed.


Lemma newCachedRequest_optionsKept (m : ApiMethod) : keeps optionsKept (newCachedRequest m).
Proof. intros st. apply optionsKept_same; reflexivity. Qed.

Lemma refresh_sameBundles : keeps sameBundles _refreshTransactionData.
Proof.
  unfold _refreshTransactionData, _refreshTransactionData_wallet, searchOptions_or,
    searchOptions, _getTransactionsRecentRequest, _getTransactionsAllRequest, call.
  keeps_walk; try apply newCachedRequest_sameBundles; reflexivity.
Qed.

(** **** updateObservedWallets *)

Lemma keptOrCreated_le (old : list Bundle) (c c' : nat) (b : Bundle) :
  (c <= c')%nat -> keptOrCreated old c' b -> keptOrCreated old c b.
Proof.
  unfold keptOrCreated. intros Hle.
  destruct (find (walletId b) old); [auto |].
  intros (Hf & Hnd & Hm). split; [| split; assumption].
  eapply Forall_impl; [exact Hf |]. simpl. intros r Hr. lia.
Qed.

Lemma updateObservedWallets_bundle_spec (id : string) (st : Store) :
  walletId (fst (updateObservedWallets_bundle id st)) = id
  /\ transactionsRequests (exec (updateObservedWallets_bundle id) st)
     = transactionsRequests st
  /\ (created st <= created (exec (updateObservedWallets_bundle id) st))%nat
  /\ keptOrCreated (transactionsRequests st) (created st)
       (fst (updateObservedWallets_bundle id st)).
Proof.
  unfold updateObservedWallets_bundle, _getTransactionsRecentRequest,
    _getTransactionsAllRequest, _getBalanceRequest, _getTransactionsPendingRequest,
    newCachedRequest, keptOrCreated, exec, bind, get, ret.
  simpl.
  destruct (find id (transactionsRequests st)) as [found|] eqn:Hfind; simpl;
    repeat (rewrite Hfind; simpl).
  - repeat split; reflexivity.
  - repeat split; try reflexivity; try lia.
    + unfold requestsOf. simpl. repeat constructor; simpl; lia.
    + apply NoDup_ListNoDup. repeat constructor; simpl; intuition lia.
Qed.

Lemma mapM_bundle_spec (walletIds : list string) :
  forall st,
    List.map walletId (fst (mapM updateObservedWallets_bundle walletIds st)) = walletIds
    /\ transactionsRequests (exec (mapM updateObservedWallets_bundle walletIds) st)
       = transactionsRequests st
    /\ (created st <= created (exec (mapM updateObservedWallets_bundle walletIds) st))%nat
    /\ Forall (keptOrCreated (transactionsRequests st) (created st))
         (fst (mapM updateObservedWallets_bundle walletIds st)).
Proof.
  induction walletIds as [|id walletIds IH]; intros st.
  - simpl. repeat split; try reflexivity. constructor.
  - simpl mapM. rewrite !exec_bind, !fst_bind. simpl.
    destruct (updateObservedWallets_bundle_spec id st) as (Hid & Htr & Hc & Hk).
    destruct (IH (exec (updateObservedWallets_bundle id) st)) as (Hids & Htr' & Hc' & Hk').
    repeat split.
    + unfold exec in *. simpl. f_equal; assumption.
    + unfold exec in *. simpl. congruence.
    + unfold exec in *. simpl. lia.
    + constructor; [exact Hk |].
      rewrite Htr in Hk'.
      eapply Forall_impl; [exact Hk' |].
      intros b. apply keptOrCreated_le. exact Hc.
Qed.

Lemma updateObservedWallets_bundles (walletIds : list string) (st : Store) :
  transactionsRequests (exec (updateObservedWallets walletIds) st)
  = fst (mapM updateObservedWallets_bundle walletIds st).
Proof.
  unfold updateObservedWallets.
  rewrite exec_bind, exec_bind.
  rewrite (refresh_sameBundles _). reflexivity.
Qed.

Lemma bundlesOf_occurrences (id : string) (bundles : list Bundle) :
  length (bundlesOf id bundles) = length (occurrences id (List.map walletId bundles)).
Proof.
  induction bundles as [|b bundles IH]; simpl; [reflexivity |].
  destruct (String.eqb (walletId b) id); simpl; congruence.
Qed.

Lemma occurrences_absent (id : string) (walletIds : list string) :
  ~ In id walletIds -> occurrences id walletIds = [].
Proof.
  induction walletIds as [|w walletIds IH]; simpl; [reflexivity |].
  intros Hn. destruct (String.eqb_spec w id) as [-> | Hne].
  - exfalso. apply Hn. left. reflexivity.
  - apply IH. intros Hi. apply Hn. right. exact Hi.
Qed.

Lemma occurrences_NoDup (id : string) (walletIds : list string) :
  NoDup walletIds -> In id walletIds -> length (occurrences id walletIds) = 1%nat.
Proof.
  induction 1 as [|w walletIds Hnotin Hnd IH]; simpl; [tauto |].
  intros [-> | Hin].
  - rewrite String.eqb_refl. simpl. rewrite occurrences_absent; [reflexivity |].
    rewrite <- list_elem_of_In. exact Hnotin.
  - destruct (String.eqb_spec w id) as [-> | Hne].
    { exfalso. apply Hnotin. apply list_elem_of_In. exact Hin. }
    apply IH. exact Hin.
Qed.

(** **** The getter searchOptions *)

(** The options the getter reports for a wallet: those stored, or new
    ones with the initial limit. *)
Lemma searchOptions_spec (st : Store) :
  searchOptions st =
  match active st with
  | None => (None, st)
  | Some id =>
      match _searchOptionsForWallets st !! id with
      | Some o => (Some o, st)
      | None =>
          (Some (mkSearchOptions INITIAL_SEARCH_LIMIT SEARCH_SKIP),
           set_searchOptionsForWallets
             (<[id := mkSearchOptions INITIAL_SEARCH_LIMIT SEARCH_SKIP]>
                (_searchOptionsForWallets st)) st)
      end
  end.
Proof.
  unfold searchOptions, bind, get, modify, ret.
  destruct (active st) as [id|]; [| reflexivity].
  destruct (_searchOptionsForWallets st !! id) as [o|] eqn:Hl; [reflexivity |].
  simpl. rewrite lookup_insert_eq. reflexivity.
Qed.

Lemma searchOptions_settled (st : Store) :
  hasOptions st -> exec searchOptions st = st.
Proof.
  unfold hasOptions, exec. rewrite searchOptions_spec.
  destruct (active st) as [id|]; [| reflexivity].
  intros [o Ho]. rewrite Ho. reflexivity.
Qed.

Lemma searchOptions_hasOptions (st : Store) : hasOptions (exec searchOptions st).
Proof.
  unfold hasOptions, exec. rewrite searchOptions_spec.
  destruct (active st) as [id|] eqn:Ha; simpl; [| rewrite Ha; exact I].
  destruct (_searchOptionsForWallets st !! id) as [o|] eqn:Hl; simpl; rewrite Ha.
  - rewrite Hl. eauto.
  - simpl. rewrite lookup_insert_eq. eauto.
Qed.

(** Reading the getter again returns the same options. *)
Lemma searchOptions_again (st : Store) :
  searchOptions (exec searchOptions st) = (fst (searchOptions st), exec searchOptions st).
Proof.
  unfold exec. rewrite (searchOptions_spec st).
  destruct (active st) as [id|] eqn:Ha; simpl.
  - destruct (_searchOptionsForWallets st !! id) as [o|] eqn:Hl; simpl.
    + rewrite searchOptions_spec, Ha, Hl. reflexivity.
    + rewrite searchOptions_spec. simpl. rewrite Ha, lookup_insert_eq. reflexivity.
  - rewrite searchOptions_spec, Ha. reflexivity.
Qed.

Lemma searchOptions_sameBundles : keeps sameBundles searchOptions.
Proof.
  intros st. unfold exec. rewrite searchOptions_spec.
  destruct (active st) as [id|]; [| reflexivity].
  destruct (_searchOptionsForWallets st !! id); reflexivity.
Qed.


Lemma searchOptions_optionsKept : keeps optionsKept searchOptions.
Proof.
  intros st H. rewrite (searchOptions_settled st H). auto.
Qed.

(** **** _refreshTransactionData *)


Lemma refresh_optionsKept : keeps optionsKept _refreshTransactionData.
Proof.
  unfold _refreshTransactionData, _refreshTransactionData_wallet, searchOptions_or,
    _getTransactionsRecentRequest, _getTransactionsAllRequest, call.
  keeps_walk; try apply searchOptions_optionsKept;
    try apply newCachedRequest_optionsKept; apply optionsKept_same; reflexivity.
Qed.

(** **** Which wallets are tracked *)

Lemma updateObservedWallets_walletIds (walletIds : list string) (st : Store) :
  List.map walletId (transactionsRequests (exec (updateObservedWallets walletIds) st))
  = walletIds.
Proof.
  rewrite updateObservedWallets_bundles. apply mapM_bundle_spec.
Qed.

(** C1, as the claim states it, fails: a wallet id listed twice gets two
    bundles. *)
Lemma updateObservedWallets_listed_twice :
  ~ (forall id, In id ["a"; "a"]%string ->
       length (bundlesOf id
         (transactionsRequests (exec (updateObservedWallets ["a"; "a"]%string) new)))
       = 1%nat).
Proof.
  intros H. specialize (H "a"%string (or_introl eq_refl)).
  vm_compute in H. discriminate.
Qed.

(** C1, amended: after [updateObservedWallets(W)] the wallet ids of the
    bundles in [transactionsRequests] are the list [W] itself.  So the set
    of ids is exactly [W], with no bundle for an id outside [W], and each
    id has as many bundles as it occurs in [W]: exactly one when [W] lists
    no id twice. *)
Theorem updateObservedWallets_tracks (walletIds : list string) (st : Store) :
  List.map walletId (transactionsRequests (exec (updateObservedWallets walletIds) st))
  = walletIds
  /\ (forall id,
        (exists b, In b (transactionsRequests (exec (updateObservedWallets walletIds) st))
                   /\ walletId b = id)
        <-> In id walletIds)
  /\ (forall id,
        length (bundlesOf id (transactionsRequests (exec (updateObservedWallets walletIds) st)))
        = length (occurrences id walletIds))
  /\ (NoDup walletIds ->
      forall id, In id walletIds ->
        length (bundlesOf id (transactionsRequests (exec (updateObservedWallets walletIds) st)))
        = 1%nat).
Proof.
  pose proof (updateObservedWallets_walletIds walletIds st) as Hmap.
  split; [exact Hmap |]. split; [| split].
  - intros id. split.
    + intros (b & H1 & H2). rewrite <- Hmap. apply in_map_iff. exists b. tauto.
    + intros H. rewrite <- Hmap in H. apply in_map_iff in H.
      destruct H as (b & H1 & H2). exists b. tauto.
  - intros id. rewrite bundlesOf_occurrences, Hmap. reflexivity.
  - intros Hnd id Hin. rewrite bundlesOf_occurrences, Hmap.
    apply occurrences_NoDup; assumption.
Qed.

Lemma updateObservedWallets_tracks_witness :
  length (bundlesOf "b"
    (transactionsRequests (exec (updateObservedWallets ["a"; "b"]%string) new)))
  = 1%nat.
Proof.
  destruct (updateObservedWallets_tracks ["a"; "b"]%string new) as (_ & _ & _ & H).
  apply H.
  - apply NoDup_ListNoDup. repeat constructor; simpl; intuition discriminate.
  - right. left. reflexivity.
Defined.

(** C5, as the claim states it, fails: a wallet that is tracked already
    keeps the request objects of its bundle. *)
Lemma updateObservedWallets_retains :
  ~ (forall b b' r,
       In b (transactionsRequests (exec (updateObservedWallets ["a"]%string) new)) ->
       In b' (transactionsRequests
                (exec (updateObservedWallets ["a"]%string)
                   (exec (updateObservedWallets ["a"]%string) new))) ->
       In r (requestsOf b) -> ~ In r (requestsOf b')).
Proof.
  intros H.
  apply (H (mkBundle "a" (mkCachedRequest 3 refreshPendingTransactions)
              (mkCachedRequest 0 refreshTransactions)
              (mkCachedRequest 1 refreshTransactions)
              (mkCachedRequest 2 getBalance))
           (mkBundle "a" (mkCachedRequest 3 refreshPendingTransactions)
              (mkCachedRequest 0 refreshTransactions)
              (mkCachedRequest 1 refreshTransactions)
              (mkCachedRequest 2 getBalance))
           (mkCachedRequest 0 refreshTransactions)).
  - vm_compute. left. reflexivity.
  - vm_compute. left. reflexivity.
  - left. reflexivity.
  - left. reflexivity.
Qed.

(** C5, amended: [updateObservedWallets(W)] replaces the array of bundles
    by one built from [W]: every bundle in it is of an id in [W].  The
    bundle of an id that was tracked before the call holds the request
    objects of the first bundle that id had.  The bundle of an id that was
    not tracked holds four requests created by the call, one for each of
    recent, all, balance and pending; when all requests of the earlier
    bundles were created before the call, none of these four is in an
    earlier bundle. *)
Theorem updateObservedWallets_requests
    (walletIds : list string) (st : Store) (b : Bundle) :
  In b (transactionsRequests (exec (updateObservedWallets walletIds) st)) ->
  In (walletId b) walletIds
  /\ (forall found, find (walletId b) (transactionsRequests st) = Some found ->
        requestsOf b = requestsOf found)
  /\ (find (walletId b) (transactionsRequests st) = None ->
      Forall (fun r => (created st <= rid r)%nat) (requestsOf b)
      /\ NoDup (List.map rid (requestsOf b))
      /\ List.map method (requestsOf b)
         = [refreshTransactions; refreshTransactions; getBalance;
            refreshPendingTransactions]
      /\ ((forall earlier r, In earlier (transactionsRequests st) ->
             In r (requestsOf earlier) -> (rid r < created st)%nat) ->
          forall earlier r, In earlier (transactionsRequests st) ->
            In r (requestsOf b) -> ~ In r (requestsOf earlier))).
Proof.
  intros Hin.
  split.
  { rewrite <- (updateObservedWallets_walletIds walletIds st).
    apply in_map. exact Hin. }
  rewrite updateObservedWallets_bundles in Hin.
  destruct (mapM_bundle_spec walletIds st) as (_ & _ & _ & Hall).
  rewrite List.Forall_forall in Hall. specialize (Hall b Hin).
  unfold keptOrCreated in Hall.
  destruct (find (walletId b) (transactionsRequests st)) as [found|].
  - split; [| discriminate]. intros found' Heq. inversion Heq; subst. exact Hall.
  - split; [discriminate |]. intros _.
    destruct Hall as (Hf & Hnd & Hm). repeat split; try assumption.
    intros Hold earlier r He Hr Hr'.
    rewrite List.Forall_forall in Hf.
    specialize (Hf r Hr). specialize (Hold earlier r He Hr'). lia.
Qed.

Lemma updateObservedWallets_requests_witness :
  requestsOf (mkBundle "a" (mkCachedRequest 3 refreshPendingTransactions)
                (mkCachedRequest 0 refreshTransactions)
                (mkCachedRequest 1 refreshTransactions)
                (mkCachedRequest 2 getBalance))
  = [mkCachedRequest 0 refreshTransactions; mkCachedRequest 1 refreshTransactions;
     mkCachedRequest 2 getBalance; mkCachedRequest 3 refreshPendingTransactions].
Proof.
  destruct (updateObservedWallets_requests ["b"; "a"]%string
              (exec (updateObservedWallets ["a"]%string) new)
              (mkBundle "a" (mkCachedRequest 3 refreshPendingTransactions)
                 (mkCachedRequest 0 refreshTransactions)
                 (mkCachedRequest 1 refreshTransactions)
                 (mkCachedRequest 2 getBalance)))
    as (_ & H & _).
  - vm_compute. right. left. reflexivity.
  - apply (H (mkBundle "a" (mkCachedRequest 3 refreshPendingTransactions)
                (mkCachedRequest 0 refreshTransactions)
                (mkCachedRequest 1 refreshTransactions)
                (mkCachedRequest 2 getBalance))).
    reflexivity.
Defined.

(** **** The limit and skip of a refresh *)

Lemma limitAndSkip_searchOptions (st : Store) :
  limitAndSkip (exec searchOptions st) = limitAndSkip st.
Proof.
  unfold limitAndSkip. rewrite searchOptions_again. reflexivity.
Qed.

Lemma limitAndSkip_same (st st' : Store) :
  active st' = active st ->
  _searchOptionsForWallets st' = _searchOptionsForWallets st ->
  limitAndSkip st' = limitAndSkip st.
Proof.
  intros Ha Hm. unfold limitAndSkip. rewrite !searchOptions_spec, Ha, Hm.
  destruct (active st) as [id|]; [| reflexivity].
  destruct (_searchOptionsForWallets st !! id); reflexivity.
Qed.

Lemma searchOptions_or_spec {A : Type} (field : SearchOptions -> A) (initial : A)
    (st : Store) :
  searchOptions_or field initial st
  = (match fst (searchOptions st) with
     | Some o => field o
     | None => initial
     end, exec searchOptions st).
Proof.
  unfold searchOptions_or, bind.
  pose proof (searchOptions_again st) as Hagain. unfold exec in *.
  destruct (searchOptions st) as [[o|] st1]; simpl in *; [| reflexivity].
  rewrite Hagain. reflexivity.
Qed.

Lemma searchOptions_calls (st : Store) :
  calls (exec searchOptions st) = calls st.
Proof.
  unfold exec. rewrite searchOptions_spec.
  destruct (active st) as [id|]; [| reflexivity].
  destruct (_searchOptionsForWallets st !! id); reflexivity.
Qed.

Lemma refresh_wallet_spec (wallet : string) (st : Store) :
  exists r1 r2,
    calls (exec (_refreshTransactionData_wallet wallet) st)
    = [Execute r2 (WalletIdOnly wallet); Invalidate r2;
       Execute r1 (GetTransactionsRequest wallet
                     (fst (limitAndSkip st)) (snd (limitAndSkip st)));
       Invalidate r1] ++ calls st
    /\ (forall b, find wallet (transactionsRequests st) = Some b -> r1 = recentRequest b)
    /\ limitAndSkip (exec (_refreshTransactionData_wallet wallet) st) = limitAndSkip st
    /\ transactionsRequests (exec (_refreshTransactionData_wallet wallet) st)
       = transactionsRequests st.
Proof.
  unfold _refreshTransactionData_wallet.
  set (st1 := exec searchOptions st).
  assert (H1 : exec searchOptions st1 = st1)
    by (apply searchOptions_settled, searchOptions_hasOptions).
  assert (H2 : fst (searchOptions st1) = fst (searchOptions st))
    by (unfold st1; rewrite searchOptions_again; reflexivity).
  assert (Htr : transactionsRequests st1 = transactionsRequests st)
    by apply searchOptions_sameBundles.
  assert (Hcalls : calls st1 = calls st) by apply searchOptions_calls.
  assert (Hls1 : limitAndSkip st1 = limitAndSkip st)
    by apply limitAndSkip_searchOptions.
  assert (Hl : match fst (searchOptions st) with
               | Some o => limit o | None => INITIAL_SEARCH_LIMIT end
               = fst (limitAndSkip st))
    by (unfold limitAndSkip; destruct (fst (searchOptions st)); reflexivity).
  assert (Hs : match fst (searchOptions st) with
               | Some o => skip o | None => SEARCH_SKIP end
               = snd (limitAndSkip st))
    by (unfold limitAndSkip; destruct (fst (searchOptions st)); reflexivity).
  assert (He : forall (A : Type) (f : SearchOptions -> A) (d : A) (s : Store),
             exec (searchOptions_or f d) s = exec searchOptions s)
    by (intros A f d s; unfold exec at 1; rewrite searchOptions_or_spec; reflexivity).
  assert (Hf : forall (A : Type) (f : SearchOptions -> A) (d : A) (s : Store),
             fst (searchOptions_or f d s)
             = match fst (searchOptions s) with Some o => f o | None => d end)
    by (intros A f d s; rewrite searchOptions_or_spec; reflexivity).
  rewrite exec_bind, He, Hf. fold st1. rewrite Hl.
  rewrite exec_bind, He, Hf, H1, H2, Hs.
  rewrite <- Hls1, <- Htr, <- Hcalls.
  generalize (fst (limitAndSkip st1)) (snd (limitAndSkip st1)). intros l k.
  clearbody st1. clear.
  unfold _getTransactionsRecentRequest, _getTransactionsAllRequest, newCachedRequest,
    call, exec, bind, get, modify, ret. simpl.
  destruct (find wallet (transactionsRequests st1)) as [b|] eqn:Hf; simpl;
    rewrite ?Hf; simpl.
  - exists (recentRequest b), (allRequest b). repeat split.
    + intros b' Hb. congruence.
    + apply limitAndSkip_same; reflexivity.
  - eexists _, _. repeat split.
    + discriminate.
    + apply limitAndSkip_same; reflexivity.
Qed.

Lemma refresh_loop_spec (wallets : list string) :
  forall st,
  exists made,
    calls (exec (forM _refreshTransactionData_wallet wallets) st) = made ++ calls st
    /\ (forall r w l s, In (Execute r (GetTransactionsRequest w l s)) made ->
          In w wallets /\ (l, s) = limitAndSkip st)
    /\ (forall w, In w wallets ->
          exists r, In (Execute r (GetTransactionsRequest w
                                     (fst (limitAndSkip st)) (snd (limitAndSkip st))))
                       made
                    /\ forall b, find w (transactionsRequests st) = Some b ->
                                 r = recentRequest b).
Proof.
  induction wallets as [|wallet wallets IH]; intros st.
  - exists []. simpl. repeat split; contradiction.
  - simpl forM. rewrite exec_bind.
    destruct (refresh_wallet_spec wallet st) as (r1 & r2 & Hc & Hr1 & Hls & Htr).
    destruct (IH (exec (_refreshTransactionData_wallet wallet) st))
      as (new & Hnew & Hall & Hex).
    rewrite Hls in Hall, Hex. rewrite Htr in Hex. rewrite Hc in Hnew.
    exists (new ++ [Execute r2 (WalletIdOnly wallet); Invalidate r2;
                    Execute r1 (GetTransactionsRequest wallet
                                  (fst (limitAndSkip st)) (snd (limitAndSkip st)));
                    Invalidate r1]).
    split; [rewrite Hnew, <- app_assoc; reflexivity |]. split.
    + intros r w l s Hin. apply in_app_or in Hin. destruct Hin as [Hin | Hin].
      * destruct (Hall r w l s Hin) as [Hw Heq]. split; [right; exact Hw | exact Heq].
      * simpl in Hin.
        destruct Hin as [Hin | [Hin | [Hin | [Hin | []]]]]; try discriminate.
        inversion Hin; subst. split; [left; reflexivity |].
        destruct (limitAndSkip st); reflexivity.
    + intros w [<- | Hw].
      * exists r1. split; [| exact Hr1].
        apply in_or_app. right. simpl. auto.
      * destruct (Hex w Hw) as (r & Hin & Hb). exists r. split; [| exact Hb].
        apply in_or_app. left. exact Hin.
Qed.



(** **** The search limit *)

(** The options [loadMoreTransactions] finds for a wallet. *)
Lemma increaseSearchLimit_spec (st : Store) :
  exec _increaseSearchLimit st =
  match active st with
  | None => st
  | Some id =>
      let o := default (mkSearchOptions INITIAL_SEARCH_LIMIT SEARCH_SKIP)
                 (_searchOptionsForWallets st !! id) in
      exec _refreshTransactionData
        (set_searchOptionsForWallets
           (<[id := mkSearchOptions (limit o + SEARCH_LIMIT_INCREASE) (skip o)]>
              (_searchOptionsForWallets st)) st)
  end.
Proof.
  unfold _increaseSearchLimit, exec, bind.
  rewrite (searchOptions_spec st).
  destruct (active st) as [id|] eqn:Ha; [| reflexivity].
  destruct (_searchOptionsForWallets st !! id) as [o|] eqn:Hl;
    rewrite searchOptions_spec; simpl; rewrite Ha.
  - rewrite Hl. simpl. rewrite Ha. reflexivity.
  - rewrite lookup_insert_eq. simpl. rewrite Ha. simpl.
    unfold set_searchOptionsForWallets at 1. simpl.
    rewrite insert_insert_eq. reflexivity.
Qed.






(** **** Export *)

Lemma noRows_true (respTxRows : option (list Row)) :
  noRows respTxRows = true <-> respTxRows = None \/ respTxRows = Some [].
Proof.
  destruct respTxRows as [[|row rows]|]; simpl.
  - split; auto.
  - split; [| intros [H | H]; discriminate].
    intros H. apply Z.ltb_lt in H. lia.
  - split; auto.
Qed.

(** However the store was changed while the row request was in flight,
    the part of [_exportTransactionsToFile] after its [await] stores the
    error and clears the flag when the rows are missing or the request
    failed. *)
Lemma export_resume_failure (settled : Settled (option (list Row))) (st : Store) :
  let st' := exec (_exportTransactionsToFile_resume settled) st in
  match settled with
  | Resolved respTxRows =>
      noRows respTxRows = true ->
      exportError st' = Some (mkLocalizableError noTransactionsFound)
      /\ isExporting st' = false /\ timeouts st' = timeouts st
  | Rejected (Localizable e) =>
      exportError st' = Some e /\ isExporting st' = false /\ timeouts st' = timeouts st
  | Rejected (NotLocalizable _) =>
      exportError st' = Some UnexpectedError
      /\ isExporting st' = false /\ timeouts st' = timeouts st
  end.
Proof.
  destruct settled as [respTxRows | [e | d]]; simpl.
  - intros H. unfold _exportTransactionsToFile_resume. rewrite H.
    repeat split.
  - repeat split.
  - repeat split.
Qed.

(** C2: when the row fetch returns no rows ([null] or an empty array),
    [_exportTransactionsToFile] stores the error for no transactions found
    in [exportError] and has [isExporting] false when it settles; when the
    row fetch throws an error that is not a [LocalizableError], it stores
    the [UnexpectedError] and has [isExporting] false as well.  This holds
    whatever happens to the store while the row request is in flight. *)
Theorem export_failure_stored (P : Type) (params : P) (ops : list Op) (st : Store) :
  (forall respTxRows,
     respTxRows = None \/ respTxRows = Some [] ->
     exportError (exec (_exportTransactionsToFile params (Resolved respTxRows)) st)
     = Some (mkLocalizableError noTransactionsFound)
     /\ isExporting (exec (_exportTransactionsToFile params (Resolved respTxRows)) st) = false
     /\ exportError (exec (_exportTransactionsToFile_among params ops (Resolved respTxRows)) st)
        = Some (mkLocalizableError noTransactionsFound)
     /\ isExporting (exec (_exportTransactionsToFile_among params ops (Resolved respTxRows)) st)
        = false)
  /\ (forall description,
        exportError
          (exec (_exportTransactionsToFile params (Rejected (NotLocalizable description))) st)
        = Some UnexpectedError
        /\ isExporting
             (exec (_exportTransactionsToFile params (Rejected (NotLocalizable description))) st)
           = false
        /\ exportError
             (exec (_exportTransactionsToFile_among params ops
                      (Rejected (NotLocalizable description))) st)
           = Some UnexpectedError
        /\ isExporting
             (exec (_exportTransactionsToFile_among params ops
                      (Rejected (NotLocalizable description))) st)
           = false).
Proof.
  split.
  - intros respTxRows H. apply noRows_true in H.
    unfold _exportTransactionsToFile, _exportTransactionsToFile_among.
    rewrite !exec_bind.
    pose proof (export_resume_failure (Resolved respTxRows)
                  (exec (_exportTransactionsToFile_start params) st)) as Hr.
    pose proof (export_resume_failure (Resolved respTxRows)
                  (exec (run ops) (exec (_exportTransactionsToFile_start params) st))) as Hr'.
    simpl in Hr, Hr'.
    destruct (Hr H) as (H1 & H2 & _). destruct (Hr' H) as (H3 & H4 & _).
    repeat split; assumption.
  - intros description.
    unfold _exportTransactionsToFile, _exportTransactionsToFile_among.
    rewrite !exec_bind.
    pose proof (export_resume_failure (Rejected (NotLocalizable description))
                  (exec (_exportTransactionsToFile_start params) st)) as Hr.
    pose proof (export_resume_failure (Rejected (NotLocalizable description))
                  (exec (run ops) (exec (_exportTransactionsToFile_start params) st))) as Hr'.
    simpl in Hr, Hr'.
    destruct Hr as (H1 & H2 & _). destruct Hr' as (H3 & H4 & _).
    repeat split; assumption.
Qed.

Lemma export_failure_stored_witness :
  exportError (exec (_exportTransactionsToFile tt (Resolved (Some []))) new)
  = Some (mkLocalizableError noTransactionsFound)
  /\ isExporting (exec (_exportTransactionsToFile tt (Resolved (Some []))) new) = false.
Proof.
  destruct (export_failure_stored unit tt [CloseExportTransactionDialog] new) as [H _].
  destruct (H (Some [])) as (H1 & H2 & _).
  - right. reflexivity.
  - split; assumption.
Defined.

Lemma noRows_cons (row : Row) (rows : list Row) : noRows (Some (row :: rows)) = false.
Proof.
  unfold noRows. apply Z.ltb_ge. simpl length. lia.
Qed.

(** With rows, the part after the [await] only schedules the file export
    and resets the two requests. *)
Lemma export_resume_rows (row : Row) (rows : list Row) (st : Store) :
  exec (_exportTransactionsToFile_resume (Resolved (Some (row :: rows)))) st
  = set_exportTransactions LocalizedRequest.new
      (set_getTransactionRowsToExportRequest LocalizedRequest.new
         (set_timeouts (timeouts st ++ [row :: rows]) st)).
Proof.
  unfold _exportTransactionsToFile_resume. rewrite noRows_cons. reflexivity.
Qed.

Lemma export_rows (row : Row) (rows : list Row) :
  exec (_exportTransactionsToFile tt (Resolved (Some (row :: rows)))) new
  = set_timeouts [row :: rows] (set_isExporting true new).
Proof.
  unfold _exportTransactionsToFile. rewrite exec_bind, export_resume_rows. reflexivity.
Qed.

(** While the row request of an export is in flight, and until the delayed
    file export has settled, [isExporting] is set. *)
Lemma export_delayed_success (row : Row) (rows : list Row) :
  isExporting (exec (_exportTransactionsToFile tt (Resolved (Some (row :: rows)))) new)
  = true
  /\ isExporting
       (exec (callback (Resolved tt))
          (exec (_exportTransactionsToFile tt (Resolved (Some (row :: rows)))) new))
     = false.
Proof. rewrite export_rows. split; reflexivity. Qed.

(** C3 fails on the code: when the rows arrive and the delayed file export
    is rejected, nothing catches the rejection.  [isExporting] stays set,
    [exportError] stays empty, no callback is left that could clear the
    flag, and [closeExportTransactionDialog] does nothing from then on. *)
Theorem export_delayed_failure (row : Row) (rows : list Row) (error : Thrown) :
  isExporting
    (exec (callback (Rejected error))
       (exec (_exportTransactionsToFile tt (Resolved (Some (row :: rows)))) new))
  = true
  /\ exportError
       (exec (callback (Rejected error))
          (exec (_exportTransactionsToFile tt (Resolved (Some (row :: rows)))) new))
     = None
  /\ timeouts
       (exec (callback (Rejected error))
          (exec (_exportTransactionsToFile tt (Resolved (Some (row :: rows)))) new))
     = []
  /\ exec _closeExportTransactionDialog
       (exec (callback (Rejected error))
          (exec (_exportTransactionsToFile tt (Resolved (Some (row :: rows)))) new))
     = exec (callback (Rejected error))
         (exec (_exportTransactionsToFile tt (Resolved (Some (row :: rows)))) new).
Proof. rewrite export_rows. repeat split. Qed.

(** C8: while [isExporting] is set, [closeExportTransactionDialog] leaves
    the whole store as it is: it does not ask for the dialog to be closed,
    and changes neither [isExporting] nor [exportError]. *)
Theorem closeExportTransactionDialog_while_exporting (st : Store) :
  isExporting st = true ->
  exec _closeExportTransactionDialog st = st
  /\ calls (exec _closeExportTransactionDialog st) = calls st
  /\ isExporting (exec _closeExportTransactionDialog st) = true
  /\ exportError (exec _closeExportTransactionDialog st) = exportError st.
Proof.
  intros H.
  assert (He : exec _closeExportTransactionDialog st = st).
  { unfold _closeExportTransactionDialog, exec, bind, get. simpl. rewrite H. reflexivity. }
  rewrite He. auto.
Qed.

Lemma closeExportTransactionDialog_while_exporting_witness :
  calls (exec _closeExportTransactionDialog
           (set_exportError (Some UnexpectedError) (set_isExporting true new)))
  = [].
Proof.
  destruct (closeExportTransactionDialog_while_exporting
              (set_exportError (Some UnexpectedError) (set_isExporting true new)))
    as (_ & H & _).
  - reflexivity.
  - rewrite H. reflexivity.
Defined.

(** When no export is running the dialog is closed and the export state
    cleared. *)
Lemma closeExportTransactionDialog_idle (st : Store) :
  isExporting st = false ->
  calls (exec _closeExportTransactionDialog st) = CloseActiveDialog :: calls st
  /\ isExporting (exec _closeExportTransactionDialog st) = false
  /\ exportError (exec _closeExportTransactionDialog st) = None.
Proof.
  intros H. unfold _closeExportTransactionDialog, exec, bind, get. simpl.
  rewrite H. simpl. auto.
Qed.

(** **** Request objects of the stores that can arise *)

#[local] Instance bundlesAge_preorder : PreOrder bundlesAge.
Proof.
  split.
  - intros st. split; [reflexivity | lia].
  - intros a b c [H1 H2] [H3 H4]. split; [congruence | lia].
Qed.

Lemma createdBefore_bundlesAge (st st' : Store) :
  createdBefore st -> bundlesAge st st' -> createdBefore st'.
Proof.
  intros Hc [Htr Hle] b r Hb Hr. rewrite Htr in Hb.
  specialize (Hc b r Hb Hr). lia.
Qed.

Lemma newCachedRequest_bundlesAge (m : ApiMethod) : keeps bundlesAge (newCachedRequest m).
Proof. intros st. split; [reflexivity | simpl; lia]. Qed.

Lemma refresh_bundlesAge : keeps bundlesAge _refreshTransactionData.
Proof.
  unfold _refreshTransactionData, _refreshTransactionData_wallet, searchOptions_or,
    searchOptions, _getTransactionsRecentRequest, _getTransactionsAllRequest, call.
  keeps_walk; try apply newCachedRequest_bundlesAge; split; simpl; (reflexivity || lia).
Qed.

Lemma step_bundlesAge (op : Op) :
  (forall walletIds, op <> UpdateObservedWallets walletIds) ->
  keeps bundlesAge (step op).
Proof.
  intros Hop. destruct op; simpl; try (exfalso; eapply Hop; reflexivity);
    unfold _increaseSearchLimit, searchOptions,
      _exportTransactionsToFile_start, _exportTransactionsToFile_resume,
      _exportTransactionsToFile_catch, _exportTransactionsToFile_finally,
      getTransactionRowsToExportRequest_reset, exportTransactions_reset,
      callback_start, callback_resume, _closeExportTransactionDialog,
      _refreshTransactionData_thenAll, _refreshTransactionData_thenDate,
      _refreshTransactionData_thenBalance,
      _getTransactionsRecentRequest, _getTransactionsAllRequest,
      _getBalanceRequest, _getTransactionsPendingRequest,
      _setExporting, _setExportError, call;
    keeps_walk;
    try apply refresh_bundlesAge;
    try apply newCachedRequest_bundlesAge;
    split; simpl; (reflexivity || lia).
Qed.

Lemma find_In (id : string) (bundles : list Bundle) (found : Bundle) :
  find id bundles = Some found -> In found bundles.
Proof.
  unfold find. intros H. apply List.find_some in H. tauto.
Qed.

Lemma updateObservedWallets_bundle_below (id : string) (st : Store) :
  createdBefore st ->
  forall r, In r (requestsOf (fst (updateObservedWallets_bundle id st))) ->
            (rid r < created (exec (updateObservedWallets_bundle id) st))%nat.
Proof.
  intros Hc r.
  unfold updateObservedWallets_bundle, _getTransactionsRecentRequest,
    _getTransactionsAllRequest, _getBalanceRequest, _getTransactionsPendingRequest,
    newCachedRequest, exec, bind, get, ret.
  simpl.
  destruct (find id (transactionsRequests st)) as [found|] eqn:Hfind; simpl;
    repeat (rewrite Hfind; simpl).
  - intros Hr. apply (Hc found r); [eapply find_In; exact Hfind |].
    unfold requestsOf. simpl. exact Hr.
  - intros [<- | [<- | [<- | [<- | []]]]]; simpl; lia.
Qed.

Lemma mapM_bundle_below (walletIds : list string) :
  forall st, createdBefore st ->
  forall b r, In b (fst (mapM updateObservedWallets_bundle walletIds st)) ->
              In r (requestsOf b) ->
              (rid r < created (exec (mapM updateObservedWallets_bundle walletIds) st))%nat.
Proof.
  induction walletIds as [|id walletIds IH]; intros st Hc b r.
  - simpl. contradiction.
  - simpl mapM. rewrite !exec_bind, !fst_bind. simpl.
    destruct (updateObservedWallets_bundle_spec id st) as (_ & Htr & Hle & _).
    destruct (mapM_bundle_spec walletIds (exec (updateObservedWallets_bundle id) st))
      as (_ & _ & Hle' & _).
    intros [<- | Hb] Hr.
    + pose proof (updateObservedWallets_bundle_below id st Hc r Hr) as Hlt.
      unfold exec in *. simpl. lia.
    + assert (Hc1 : createdBefore (exec (updateObservedWallets_bundle id) st))
        by (apply (createdBefore_bundlesAge st); [exact Hc | split; assumption]).
      pose proof (IH _ Hc1 b r Hb Hr) as Hlt.
      unfold exec in *. simpl. exact Hlt.
Qed.

Lemma updateObservedWallets_createdBefore (walletIds : list string) (st : Store) :
  createdBefore st -> createdBefore (exec (updateObservedWallets walletIds) st).
Proof.
  intros Hc. unfold updateObservedWallets. rewrite exec_bind, exec_bind.
  apply (createdBefore_bundlesAge
           (exec (modify (set_transactionsRequests
                            (fst (mapM updateObservedWallets_bundle walletIds st))))
              (exec (mapM updateObservedWallets_bundle walletIds) st)));
    [| apply refresh_bundlesAge].
  intros b r Hb Hr. simpl in Hb.
  exact (mapM_bundle_below walletIds st Hc b r Hb Hr).
Qed.

(** In every store that operations on the new store lead to, the requests
    of the bundles are among those created so far: a request created later
    is in none of them. *)
Lemma run_createdBefore (ops : list Op) :
  forall st, createdBefore st -> createdBefore (exec (run ops) st).
Proof.
  unfold run. induction ops as [|op ops IH]; intros st Hc; [exact Hc |].
  simpl forM. rewrite exec_bind. apply IH.
  destruct op;
    try (apply (createdBefore_bundlesAge st); [exact Hc |];
         apply step_bundlesAge; discriminate).
  apply updateObservedWallets_createdBefore. exact Hc.
Qed.

Lemma new_createdBefore : createdBefore new.
Proof. intros b r Hb. contradiction. Qed.

End TransactionsStoreProperties.


(** ** More properties of SettingsStore *)

Section SettingsReactionsProperties.
Import LocalizedRequest SettingsStore SettingsReactions.

Lemma notNullNorEmpty_true (x : option string) :
  notNullNorEmpty x = true <-> exists s, x = Some s /\ s <> ""%string.
Proof.
  destruct x as [s|]; simpl.
  - destruct (String.eqb_spec s ""); simpl; split.
    + discriminate.
    + intros (s' & Hs & Hne). inversion Hs; subst. contradiction.
    + intros _. exists s. auto.
    + reflexivity.
  - split; [discriminate | intros (s & Hs & _); discriminate].
Qed.

Lemma currentLocale_value (st : Store) :
  fst (currentLocale st)
  = if isCurrentLocaleSet st then result (getProfileLocaleRequest st) else Some "en-US"%string.
Proof.
  unfold currentLocale, isCurrentLocaleSet. simpl.
  destruct (notNullNorEmpty _); reflexivity.
Qed.

Lemma currentLocale_some (st : Store) :
  exists s, fst (currentLocale st) = Some s /\ s <> ""%string.
Proof.
  rewrite currentLocale_value. unfold isCurrentLocaleSet.
  destruct (notNullNorEmpty (result (getProfileLocaleRequest st))) eqn:Hset.
  - apply notNullNorEmpty_true in Hset. exact Hset.
  - exists "en-US"%string. split; [reflexivity | discriminate].
Qed.

Lemma convert_cases (localeKey : string) :
  (localeKey = "zh-Hans"%string
   /\ _convertLocaleKeyToMomentJSLocalKey localeKey = "zh-cn"%string)
  \/ (localeKey = "zh-Hant"%string
      /\ _convertLocaleKeyToMomentJSLocalKey localeKey = "zh-tw"%string)
  \/ (localeKey <> "zh-Hans"%string /\ localeKey <> "zh-Hant"%string
      /\ _convertLocaleKeyToMomentJSLocalKey localeKey = localeKey).
Proof.
  unfold _convertLocaleKeyToMomentJSLocalKey.
  destruct (String.eqb_spec localeKey "zh-Hans") as [-> | H1]; [left; auto |].
  destruct (String.eqb_spec localeKey "zh-Hant") as [-> | H2]; [right; left; auto |].
  right. right. auto.
Qed.

(** X1: [_convertLocaleKeyToMomentJSLocalKey] turns ['zh-Hans'] into
    ['zh-cn'] and ['zh-Hant'] into ['zh-tw'] and returns every other key
    as it is.  It never returns either of the two keys it translates,
    converting twice is converting once, and only the empty key gives the
    empty key. *)
Theorem convertLocaleKey_translates (localeKey : string) :
  (localeKey = "zh-Hans"%string ->
   _convertLocaleKeyToMomentJSLocalKey localeKey = "zh-cn"%string)
  /\ (localeKey = "zh-Hant"%string ->
      _convertLocaleKeyToMomentJSLocalKey localeKey = "zh-tw"%string)
  /\ (localeKey <> "zh-Hans"%string -> localeKey <> "zh-Hant"%string ->
      _convertLocaleKeyToMomentJSLocalKey localeKey = localeKey)
  /\ _convertLocaleKeyToMomentJSLocalKey localeKey <> "zh-Hans"%string
  /\ _convertLocaleKeyToMomentJSLocalKey localeKey <> "zh-Hant"%string
  /\ _convertLocaleKeyToMomentJSLocalKey (_convertLocaleKeyToMomentJSLocalKey localeKey)
     = _convertLocaleKeyToMomentJSLocalKey localeKey
  /\ (_convertLocaleKeyToMomentJSLocalKey localeKey = ""%string <-> localeKey = ""%string).
Proof.
  destruct (convert_cases localeKey) as [[-> E] | [[-> E] | (H1 & H2 & E)]].
  - repeat split; try (intros; discriminate); try reflexivity; try congruence.
  - repeat split; try (intros; discriminate); try reflexivity; try congruence.
  - rewrite !E. repeat split; try congruence; auto.
Qed.

Lemma convertLocaleKey_translates_witness :
  _convertLocaleKeyToMomentJSLocalKey "en-US" = "en-US"%string.
Proof.
  destruct (convertLocaleKey_translates "en-US") as (_ & _ & H & _).
  apply H; discriminate.
Defined.

(** X2: [currentLocale] is always a string that is not empty, never
    [null]: the cached locale when one is set, ['en-US'] otherwise.
    Reading it executes the locale request but leaves what the request has
    cached, so reading it again gives the same locale. *)
Theorem currentLocale_never_empty (st : Store) :
  (exists s, fst (currentLocale st) = Some s /\ s <> ""%string)
  /\ (isCurrentLocaleSet st = true ->
      fst (currentLocale st) = result (getProfileLocaleRequest st))
  /\ result (getProfileLocaleRequest (snd (currentLocale st)))
     = result (getProfileLocaleRequest st)
  /\ wasExecuted (getProfileLocaleRequest (snd (currentLocale st)))
     = wasExecuted (getProfileLocaleRequest st)
  /\ fst (currentLocale (snd (currentLocale st))) = fst (currentLocale st).
Proof.
  split; [apply currentLocale_some |].
  split; [intros H; rewrite currentLocale_value, H; reflexivity |].
  assert (Hres : result (getProfileLocaleRequest (snd (currentLocale st)))
                 = result (getProfileLocaleRequest st)).
  { unfold currentLocale. simpl. destruct (isCurrentLocaleSet _); reflexivity. }
  split; [exact Hres |]. split.
  - unfold currentLocale. simpl. destruct (isCurrentLocaleSet _); reflexivity.
  - rewrite !currentLocale_value. unfold isCurrentLocaleSet. rewrite Hres. reflexivity.
Qed.

Lemma currentLocale_never_empty_witness :
  fst (currentLocale (mkStore (mkRequest (Some "ja-JP"%string) true false) new new new
                        false []))
  = Some "ja-JP"%string.
Proof.
  destruct (currentLocale_never_empty
              (mkStore (mkRequest (Some "ja-JP"%string) true false) new new new false []))
    as (_ & H & _).
  rewrite H; reflexivity.
Defined.

(** X3: the reaction [_updateMomentJsLocaleAfterLocaleChange] always gives
    [moment.locale] a key that is a string, not empty and neither
    ['zh-Hans'] nor ['zh-Hant']: the converted current locale, which is
    ['en-US'] while no locale is set. *)
Theorem updateMomentJsLocale_key (st : Store) :
  (exists key,
     fst (_updateMomentJsLocaleAfterLocaleChange st) = Some key
     /\ key <> ""%string /\ key <> "zh-Hans"%string /\ key <> "zh-Hant"%string)
  /\ (isCurrentLocaleSet st = false ->
      fst (_updateMomentJsLocaleAfterLocaleChange st) = Some "en-US"%string)
  /\ (forall localeKey,
        result (getProfileLocaleRequest st) = Some localeKey -> localeKey <> ""%string ->
        fst (_updateMomentJsLocaleAfterLocaleChange st)
        = Some (_convertLocaleKeyToMomentJSLocalKey localeKey)).
Proof.
  assert (Hkey : fst (_updateMomentJsLocaleAfterLocaleChange st)
                 = match fst (currentLocale st) with
                   | Some k => Some (_convertLocaleKeyToMomentJSLocalKey k)
                   | None => None
                   end).
  { unfold _updateMomentJsLocaleAfterLocaleChange.
    destruct (currentLocale st) as [locale st']. reflexivity. }
  split; [| split].
  - destruct (currentLocale_some st) as (s & Hs & Hne).
    exists (_convertLocaleKeyToMomentJSLocalKey s).
    rewrite Hkey, Hs. split; [reflexivity |].
    destruct (convert_cases s) as [[-> E] | [[-> E] | (H1 & H2 & E)]];
      rewrite E; repeat split; try discriminate; assumption.
  - intros Hunset. rewrite Hkey, currentLocale_value, Hunset. reflexivity.
  - intros localeKey Hres Hne. rewrite Hkey, currentLocale_value.
    unfold isCurrentLocaleSet. rewrite Hres. simpl.
    destruct (String.eqb_spec localeKey ""); [contradiction | reflexivity].
Qed.

Lemma updateMomentJsLocale_key_witness :
  fst (_updateMomentJsLocaleAfterLocaleChange
         (mkStore (mkRequest (Some "zh-Hans"%string) true false) new new new false []))
  = Some "zh-cn"%string.
Proof.
  destruct (updateMomentJsLocale_key
              (mkStore (mkRequest (Some "zh-Hans"%string) true false) new new new false []))
    as (_ & _ & H).
  rewrite (H "zh-Hans"%string); [reflexivity | reflexivity | discriminate].
Defined.

Lemma trigger_goToRoute_neq (route : Route) (st : Store) :
  trigger_goToRoute route st <> st.
Proof.
  intros H. apply (f_equal goToRoute) in H. simpl in H.
  apply (f_equal (@length Route)) in H. simpl in H. lia.
Qed.

Lemma terms_redirect_condition (st : Store) :
  isCurrentLocaleSet st && hasLoadedTermsOfUseAcceptance st
  && negb (areTermsOfUseAccepted st) = true
  <-> isCurrentLocaleSet st = true
      /\ wasExecuted (getTermsOfUseAcceptanceRequest st) = true
      /\ exists v, result (getTermsOfUseAcceptanceRequest st) = Some v
                   /\ v <> JsBool true.
Proof.
  unfold hasLoadedTermsOfUseAcceptance, areTermsOfUseAccepted, notNull.
  destruct (isCurrentLocaleSet st), (wasExecuted (getTermsOfUseAcceptanceRequest st)),
    (result (getTermsOfUseAcceptanceRequest st)) as [[[|]|s]|]; simpl;
    split; try discriminate;
    try (intros (H1 & H2 & v & H3 & H4); try discriminate;
         inversion H3; subst; congruence);
    intros _; repeat split; eexists; split; try reflexivity; discriminate.
Qed.

(** X4: the reaction [_redirectToTermsOfUseScreenIfTermsNotAccepted] asks
    for the terms-of-use route if and only if a locale is set, the read of
    the terms acceptance was executed and its cached result is neither
    [null] nor [true]; in every other state, in particular while that read
    has no result, it leaves the store as it is. *)
Theorem redirectToTermsOfUse_iff (st : Store) :
  (_redirectToTermsOfUseScreenIfTermsNotAccepted st
   = trigger_goToRoute PROFILE_TERMS_OF_USE st
   <-> isCurrentLocaleSet st = true
       /\ wasExecuted (getTermsOfUseAcceptanceRequest st) = true
       /\ exists v, result (getTermsOfUseAcceptanceRequest st) = Some v
                    /\ v <> JsBool true)
  /\ (_redirectToTermsOfUseScreenIfTermsNotAccepted st = st
      <-> ~ (isCurrentLocaleSet st = true
             /\ wasExecuted (getTermsOfUseAcceptanceRequest st) = true
             /\ exists v, result (getTermsOfUseAcceptanceRequest st) = Some v
                          /\ v <> JsBool true))
  /\ (result (getTermsOfUseAcceptanceRequest st) = None ->
      _redirectToTermsOfUseScreenIfTermsNotAccepted st = st)
  /\ (result (getTermsOfUseAcceptanceRequest st) = Some (JsBool true) ->
      _redirectToTermsOfUseScreenIfTermsNotAccepted st = st).
Proof.
  pose proof (terms_redirect_condition st) as Hc.
  unfold _redirectToTermsOfUseScreenIfTermsNotAccepted.
  destruct (isCurrentLocaleSet st && hasLoadedTermsOfUseAcceptance st
            && negb (areTermsOfUseAccepted st)).
  - assert (H : isCurrentLocaleSet st = true
                /\ wasExecuted (getTermsOfUseAcceptanceRequest st) = true
                /\ exists v, result (getTermsOfUseAcceptanceRequest st) = Some v
                             /\ v <> JsBool true)
      by (apply Hc; reflexivity).
    split; [tauto |]. split; [| split].
    + split; [intros E; exfalso; exact (trigger_goToRoute_neq _ _ E) | tauto].
    + intros Hn. destruct H as (_ & _ & v & H & _). congruence.
    + intros Ht. destruct H as (_ & _ & v & H & Hv). congruence.
  - assert (H : ~ (isCurrentLocaleSet st = true
                   /\ wasExecuted (getTermsOfUseAcceptanceRequest st) = true
                   /\ exists v, result (getTermsOfUseAcceptanceRequest st) = Some v
                                /\ v <> JsBool true))
      by (intros H; apply Hc in H; discriminate).
    split; [| split; [tauto | split; reflexivity]].
    split; [| tauto].
    intros E. exfalso. symmetry in E. exact (trigger_goToRoute_neq _ _ E).
Qed.

Lemma redirectToTermsOfUse_iff_witness :
  _redirectToTermsOfUseScreenIfTermsNotAccepted
    (mkStore (mkRequest (Some "en-US"%string) true false) new new
       (mkRequest None false true) false [])
  = mkStore (mkRequest (Some "en-US"%string) true false) new new
      (mkRequest None false true) false [].
Proof.
  destruct (redirectToTermsOfUse_iff
              (mkStore (mkRequest (Some "en-US"%string) true false) new new
                 (mkRequest None false true) false []))
    as (_ & _ & H & _).
  apply H. reflexivity.
Defined.

(** A cached value that is not a boolean sends to the terms of use as
    [false] does. *)
Lemma redirectToTermsOfUse_string :
  _redirectToTermsOfUseScreenIfTermsNotAccepted
    (mkStore (mkRequest (Some "en-US"%string) true false) new new
       (mkRequest (Some (JsString "true")) true false) false [])
  = trigger_goToRoute PROFILE_TERMS_OF_USE
      (mkStore (mkRequest (Some "en-US"%string) true false) new new
         (mkRequest (Some (JsString "true")) true false) false []).
Proof. reflexivity. Qed.

(** X5: the reaction [_redirectToMainUiAfterTermsAreAccepted] asks for the
    root route if and only if the cached terms acceptance is [true] and the
    current route is the terms-of-use route; otherwise it leaves the store
    as it is. *)
Theorem redirectToMainUi_iff (currentRoute : CurrentRoute) (st : Store) :
  (_redirectToMainUiAfterTermsAreAccepted currentRoute st
   = trigger_goToRoute WALLETS_ROOT st
   <-> result (getTermsOfUseAcceptanceRequest st) = Some (JsBool true)
       /\ currentRoute = At PROFILE_TERMS_OF_USE)
  /\ (_redirectToMainUiAfterTermsAreAccepted currentRoute st = st
      <-> ~ (result (getTermsOfUseAcceptanceRequest st) = Some (JsBool true)
             /\ currentRoute = At PROFILE_TERMS_OF_USE)).
Proof.
  unfold _redirectToMainUiAfterTermsAreAccepted, _redirectToRoot, areTermsOfUseAccepted,
    _isOnTermsOfUsePage.
  destruct (result (getTermsOfUseAcceptanceRequest st)) as [[[|]|s]|];
    destruct currentRoute as [[| |]|]; simpl;
    (split; split);
    try (intros E; exfalso;
         first [exact (trigger_goToRoute_neq _ _ E)
               | symmetry in E; exact (trigger_goToRoute_neq _ _ E)]);
    try reflexivity; try tauto;
    try (intros [H1 H2]; discriminate);
    try (intros _ [H1 H2]; discriminate);
    try (intros H; exfalso; apply H; split; reflexivity).
Qed.

Lemma redirectToMainUi_iff_witness :
  _redirectToMainUiAfterTermsAreAccepted (At PROFILE_TERMS_OF_USE)
    (mkStore new new new (mkRequest (Some (JsBool true)) true false) false [])
  = trigger_goToRoute WALLETS_ROOT
      (mkStore new new new (mkRequest (Some (JsBool true)) true false) false []).
Proof.
  destruct (redirectToMainUi_iff (At PROFILE_TERMS_OF_USE)
              (mkStore new new new (mkRequest (Some (JsBool true)) true false) false []))
    as ([_ H] & _).
  apply H. split; reflexivity.
Defined.

(** X6: in no state does the redirect to the terms of use fire together
    with another redirect: not with the one to the language selection,
    which needs the locale unset, and not with the one to the root route,
    which needs the terms accepted. *)
Theorem redirects_exclude (currentRoute : CurrentRoute) (st : Store) :
  (_redirectToTermsOfUseScreenIfTermsNotAccepted st <> st ->
   _redirectToLanguageSelectionIfNoLocaleSet st = st
   /\ _redirectToMainUiAfterTermsAreAccepted currentRoute st = st)
  /\ (_redirectToLanguageSelectionIfNoLocaleSet st <> st ->
      _redirectToTermsOfUseScreenIfTermsNotAccepted st = st)
  /\ (_redirectToMainUiAfterTermsAreAccepted currentRoute st <> st ->
      _redirectToTermsOfUseScreenIfTermsNotAccepted st = st).
Proof.
  unfold _redirectToTermsOfUseScreenIfTermsNotAccepted,
    _redirectToLanguageSelectionIfNoLocaleSet, _redirectToMainUiAfterTermsAreAccepted.
  destruct (isCurrentLocaleSet st), (areTermsOfUseAccepted st),
    (hasLoadedTermsOfUseAcceptance st), (isLoading st), (hasLoadedCurrentLocale st),
    (_isOnTermsOfUsePage currentRoute); simpl;
    repeat split; intros; try reflexivity;
    match goal with
    | Hne : ?x <> ?x |- _ => exfalso; apply Hne; reflexivity
    end.
Qed.

Lemma redirects_exclude_witness :
  _redirectToLanguageSelectionIfNoLocaleSet
    (mkStore (mkRequest (Some "en-US"%string) true false) new new
       (mkRequest (Some (JsBool false)) true false) false [])
  = mkStore (mkRequest (Some "en-US"%string) true false) new new
      (mkRequest (Some (JsBool false)) true false) false [].
Proof.
  destruct (redirects_exclude Elsewhere
              (mkStore (mkRequest (Some "en-US"%string) true false) new new
                 (mkRequest (Some (JsBool false)) true false) false []))
    as (H & _).
  apply H. vm_compute. discriminate.
Defined.

(** X7: when the cached custom theme is the empty string,
    [currentThemeVars] is the prebuilt file named after [currentTheme]:
    after the cached theme when one is set, after [THEMES.YOROI_CLASSIC]
    otherwise. *)
Theorem currentThemeVars_prebuilt (YOROI_CLASSIC : string) (st : Store) :
  result (getCustomThemeRequest st) = Some ""%string ->
  (exists theme,
     fst (currentTheme YOROI_CLASSIC st) = Some theme
     /\ fst (currentThemeVars YOROI_CLASSIC st)
        = Required ("../../themes/prebuilt/" +:+ theme +:+ ".js"))
  /\ (isCurrentThemeSet st = false ->
      fst (currentThemeVars YOROI_CLASSIC st)
      = Required ("../../themes/prebuilt/" +:+ YOROI_CLASSIC +:+ ".js"))
  /\ (forall theme, result (getThemeRequest st) = Some theme -> theme <> ""%string ->
      fst (currentThemeVars YOROI_CLASSIC st)
      = Required ("../../themes/prebuilt/" +:+ theme +:+ ".js")).
Proof.
  intros Hcustom.
  assert (Hvars : fst (currentThemeVars YOROI_CLASSIC st)
                  = getThemeVars YOROI_CLASSIC
                      (if isCurrentThemeSet st then result (getThemeRequest st)
                       else Some YOROI_CLASSIC)).
  { unfold currentThemeVars. simpl. rewrite Hcustom. simpl.
    unfold currentTheme, isCurrentThemeSet. simpl.
    destruct (notNullNorEmpty _); reflexivity. }
  assert (Hth : fst (currentTheme YOROI_CLASSIC st)
                = if isCurrentThemeSet st then result (getThemeRequest st)
                  else Some YOROI_CLASSIC).
  { unfold currentTheme, isCurrentThemeSet. simpl.
    destruct (notNullNorEmpty _); reflexivity. }
  rewrite Hvars, Hth. unfold isCurrentThemeSet.
  destruct (notNullNorEmpty (result (getThemeRequest st))) eqn:Hset.
  - apply notNullNorEmpty_true in Hset. destruct Hset as (t & Ht & Hne).
    rewrite Ht. simpl.
    destruct (String.eqb_spec t ""); [contradiction |]. simpl.
    split; [exists t; auto |]. split; [discriminate |].
    intros theme Heq _. inversion Heq; subst. reflexivity.
  - split; [| split].
    + exists YOROI_CLASSIC. split; [reflexivity |]. simpl.
      destruct (negb (YOROI_CLASSIC =? "")%string); reflexivity.
    + intros _. simpl. destruct (negb (YOROI_CLASSIC =? "")%string); reflexivity.
    + intros theme Heq Hne. exfalso.
      assert (Ht : notNullNorEmpty (result (getThemeRequest st)) = true)
        by (apply notNullNorEmpty_true; exists theme; auto).
      congruence.
Qed.

Lemma currentThemeVars_prebuilt_witness :
  fst (currentThemeVars "YoroiClassic"
         (mkStore new (mkRequest (Some "YoroiModern"%string) true false)
            (mkRequest (Some ""%string) true false) new false []))
  = Required "../../themes/prebuilt/YoroiModern.js".
Proof.
  destruct (currentThemeVars_prebuilt "YoroiClassic"
              (mkStore new (mkRequest (Some "YoroiModern"%string) true false)
                 (mkRequest (Some ""%string) true false) new false []))
    as (_ & _ & H).
  - reflexivity.
  - rewrite (H "YoroiModern"%string); [reflexivity | reflexivity | discriminate].
Defined.

End SettingsReactionsProperties.

(** ** More properties of TransactionsStore *)

Section TransactionsViewsProperties.
Import LocalizedRequest TransactionsStore TransactionsViews.

#[local] Instance sameWallets_preorder : PreOrder sameWallets.
Proof.
  split.
  - intros st. repeat split.
  - intros a b c (H1 & H2 & H3) (H4 & H5 & H6). repeat split; congruence.
Qed.

#[local] Instance sameWalletsStore_preorder : PreOrder sameWalletsStore.
Proof.
  split.
  - intros st. split; reflexivity.
  - intros a b c [H1 H2] [H3 H4]. split; congruence.
Qed.

#[local] Instance sameExport_preorder : PreOrder sameExport.
Proof.
  split.
  - intros st. repeat split.
  - intros a b c (H1 & H2 & H3 & H4 & H5) (H6 & H7 & H8 & H9 & H10).
    repeat split; congruence.
Qed.

#[local] Instance sameTracking_preorder : PreOrder sameTracking.
Proof.
  split.
  - intros st. repeat split.
  - intros a b c (H1 & H2 & H3) (H4 & H5 & H6).
    split; [congruence |]. split; [congruence |]. etransitivity; eassumption.
Qed.

#[local] Instance keepsWellFormed_preorder : PreOrder keepsWellFormed.
Proof.
  split.
  - intros st H. exact H.
  - intros a b c Hab Hbc H. apply Hbc, Hab, H.
Qed.

(** **** One wallet of a refresh, exactly *)

Lemma searchOptions_created (st : Store) :
  created (exec searchOptions st) = created st.
Proof.
  unfold exec. rewrite searchOptions_spec.
  destruct (active st) as [id|]; [| reflexivity].
  destruct (_searchOptionsForWallets st !! id); reflexivity.
Qed.

Lemma searchOptions_or_exec {A : Type} (field : SearchOptions -> A) (initial : A)
    (st : Store) :
  exec (searchOptions_or field initial) st = exec searchOptions st.
Proof. unfold exec at 1. rewrite searchOptions_or_spec. reflexivity. Qed.

Lemma searchOptions_or_fst {A : Type} (field : SearchOptions -> A) (initial : A)
    (st : Store) :
  fst (searchOptions_or field initial st)
  = match fst (searchOptions st) with
    | Some o => field o
    | None => initial
    end.
Proof. rewrite searchOptions_or_spec. reflexivity. Qed.

Lemma limitAndSkip_fst (st : Store) :
  match fst (searchOptions st) with
  | Some o => limit o
  | None => INITIAL_SEARCH_LIMIT
  end = fst (limitAndSkip st).
Proof. unfold limitAndSkip. destruct (fst (searchOptions st)); reflexivity. Qed.

Lemma limitAndSkip_snd (st : Store) :
  match fst (searchOptions st) with
  | Some o => skip o
  | None => SEARCH_SKIP
  end = snd (limitAndSkip st).
Proof. unfold limitAndSkip. destruct (fst (searchOptions st)); reflexivity. Qed.

Lemma refresh_wallet_exact (wallet : string) (st : Store) :
  exec (_refreshTransactionData_wallet wallet) st
  = match find wallet (transactionsRequests st) with
    | Some b =>
        set_calls
          (refreshCalls wallet (fst (limitAndSkip st)) (snd (limitAndSkip st))
             (recentRequest b) (allRequest b) ++ calls st)
          (exec searchOptions st)
    | None =>
        set_calls
          (refreshCalls wallet (fst (limitAndSkip st)) (snd (limitAndSkip st))
             (mkCachedRequest (created st) refreshTransactions)
             (mkCachedRequest (S (created st)) refreshTransactions) ++ calls st)
          (set_created (S (S (created st))) (exec searchOptions st))
    end.
Proof.
  unfold _refreshTransactionData_wallet.
  rewrite exec_bind, searchOptions_or_exec, searchOptions_or_fst, limitAndSkip_fst.
  rewrite exec_bind, searchOptions_or_exec, searchOptions_or_fst, limitAndSkip_snd.
  rewrite (searchOptions_settled _ (searchOptions_hasOptions st)).
  rewrite limitAndSkip_searchOptions.
  rewrite <- (searchOptions_sameBundles st : _ = transactionsRequests st).
  rewrite <- (searchOptions_calls st), <- (searchOptions_created st).
  generalize (exec searchOptions st) (fst (limitAndSkip st)) (snd (limitAndSkip st)).
  intros st1 l s.
  unfold _getTransactionsRecentRequest, _getTransactionsAllRequest, newCachedRequest,
    call, exec, bind, get, modify, ret. simpl.
  destruct (find wallet (transactionsRequests st1)) as [b|] eqn:Hf; simpl;
    rewrite ?Hf; simpl; reflexivity.
Qed.

Lemma refresh_wallet_calls (wallet : string) (st : Store) :
  exists r1 r2,
    calls (exec (_refreshTransactionData_wallet wallet) st)
    = refreshCalls wallet (fst (limitAndSkip st)) (snd (limitAndSkip st)) r1 r2 ++ calls st
    /\ transactionsRequests (exec (_refreshTransactionData_wallet wallet) st)
       = transactionsRequests st
    /\ (created st <= created (exec (_refreshTransactionData_wallet wallet) st))%nat
    /\ limitAndSkip (exec (_refreshTransactionData_wallet wallet) st) = limitAndSkip st
    /\ match find wallet (transactionsRequests st) with
       | Some b => r1 = recentRequest b /\ r2 = allRequest b
       | None => rid r1 = created st /\ rid r2 = S (created st)
       end.
Proof.
  rewrite refresh_wallet_exact.
  pose proof (searchOptions_sameBundles st) as Htr. unfold sameBundles in Htr.
  pose proof (searchOptions_created st) as Hcr.
  pose proof (limitAndSkip_searchOptions st) as Hls.
  destruct (find wallet (transactionsRequests st)) as [b|].
  - exists (recentRequest b), (allRequest b). simpl.
    split; [reflexivity |]. split; [exact Htr |]. split; [lia |].
    split; [| auto]. rewrite <- Hls. apply limitAndSkip_same; reflexivity.
  - eexists _, _. simpl.
    split; [reflexivity |]. split; [exact Htr |]. split; [lia |].
    split; [| auto]. rewrite <- Hls. apply limitAndSkip_same; reflexivity.
Qed.

Lemma recentExecutes_app (a b : list Call) :
  recentExecutes (a ++ b) = recentExecutes b ++ recentExecutes a.
Proof.
  unfold recentExecutes. rewrite rev_app_distr, flat_map_app. reflexivity.
Qed.

Lemma allExecutes_app (a b : list Call) :
  allExecutes (a ++ b) = allExecutes b ++ allExecutes a.
Proof.
  unfold allExecutes. rewrite rev_app_distr, flat_map_app. reflexivity.
Qed.

(** What a request executed for wallet [w] is, seen from the store [st]
    the refresh started in: one of the wallet's bundle, or one created
    since. *)
Lemma refresh_loop_exact (wallets : list string) :
  forall st,
  exists made,
    calls (exec (forM _refreshTransactionData_wallet wallets) st) = made ++ calls st
    /\ length made = (4 * length wallets)%nat
    /\ List.map fst (recentExecutes made) = wallets
    /\ List.map fst (allExecutes made) = wallets
    /\ (forall w r, In (w, r) (recentExecutes made) ->
          match find w (transactionsRequests st) with
          | Some b => r = recentRequest b
          | None => (created st <= rid r)%nat
          end)
    /\ (forall w r, In (w, r) (allExecutes made) ->
          match find w (transactionsRequests st) with
          | Some b => r = allRequest b
          | None => (created st <= rid r)%nat
          end)
    /\ transactionsRequests (exec (forM _refreshTransactionData_wallet wallets) st)
       = transactionsRequests st
    /\ (created st <= created (exec (forM _refreshTransactionData_wallet wallets) st))%nat.
Proof.
  induction wallets as [|wallet wallets IH]; intros st.
  - exists []. simpl. repeat split; try reflexivity; try lia.
  - simpl forM. rewrite exec_bind.
    destruct (refresh_wallet_calls wallet st) as (r1 & r2 & Hc & Htr & Hcr & _ & Hr).
    destruct (IH (exec (_refreshTransactionData_wallet wallet) st))
      as (made & Hmade & Hlen & Hrec & Hall & Hreq & Hreq' & Htr' & Hcr').
    exists (made ++ refreshCalls wallet (fst (limitAndSkip st)) (snd (limitAndSkip st)) r1 r2).
    split; [rewrite Hmade, Hc, app_assoc; reflexivity |].
    split; [rewrite length_app, Hlen; simpl; lia |].
    split; [rewrite recentExecutes_app; simpl; f_equal; exact Hrec |].
    split; [rewrite allExecutes_app; simpl; f_equal; exact Hall |].
    split; [| split; [| split; [congruence | lia]]].
    + intros w r Hin. rewrite recentExecutes_app in Hin. simpl in Hin.
      destruct Hin as [E | Hin].
      * inversion E; subst.
        destruct (find w (transactionsRequests st)); [tauto | lia].
      * specialize (Hreq w r Hin). rewrite Htr in Hreq.
        destruct (find w (transactionsRequests st)); [exact Hreq | lia].
    + intros w r Hin. rewrite allExecutes_app in Hin. simpl in Hin.
      destruct Hin as [E | Hin].
      * inversion E; subst.
        destruct (find w (transactionsRequests st)); [tauto | lia].
      * specialize (Hreq' w r Hin). rewrite Htr in Hreq'.
        destruct (find w (transactionsRequests st)); [exact Hreq' | lia].
Qed.

Lemma recentExecutes_In (log : list Call) (w : string) (r : CachedRequest) :
  In (w, r) (recentExecutes log)
  <-> exists l s, In (Execute r (GetTransactionsRequest w l s)) log.
Proof.
  unfold recentExecutes. rewrite in_flat_map. split.
  - intros (c & Hc & Hin). apply in_rev in Hc.
    destruct c as [| r' [w' l s | |] | | | | |]; simpl in Hin; try contradiction.
    destruct Hin as [E | []]. inversion E; subst. eauto.
  - intros (l & s & Hin). exists (Execute r (GetTransactionsRequest w l s)).
    split; [apply in_rev in Hin; exact Hin | left; reflexivity].
Qed.

Lemma allExecutes_In (log : list Call) (w : string) (r : CachedRequest) :
  In (w, r) (allExecutes log) <-> In (Execute r (WalletIdOnly w)) log.
Proof.
  unfold allExecutes. rewrite in_flat_map. split.
  - intros (c & Hc & Hin). apply in_rev in Hc.
    destruct c as [| r' [w' l s | w' |] | | | | |]; simpl in Hin; try contradiction.
    destruct Hin as [E | []]. inversion E; subst. exact Hc.
  - intros Hin. exists (Execute r (WalletIdOnly w)).
    split; [apply in_rev in Hin; exact Hin | left; reflexivity].
Qed.

(** One refresh, with all that the loop lemmas tell of it. *)
Lemma refresh_exact (st : Store) :
  exists made,
    calls (exec _refreshTransactionData st) = made ++ calls st
    /\ length made = (4 * length (all st))%nat
    /\ List.map fst (recentExecutes made) = all st
    /\ List.map fst (allExecutes made) = all st
    /\ (forall w r, In (w, r) (recentExecutes made) ->
          In (Execute r (GetTransactionsRequest w
                           (fst (limitAndSkip st)) (snd (limitAndSkip st)))) made
          /\ match find w (transactionsRequests st) with
             | Some b => r = recentRequest b
             | None => (created st <= rid r)%nat
             end)
    /\ (forall w r, In (w, r) (allExecutes made) ->
          In (Execute r (WalletIdOnly w)) made
          /\ match find w (transactionsRequests st) with
             | Some b => r = allRequest b
             | None => (created st <= rid r)%nat
             end)
    /\ transactionsRequests (exec _refreshTransactionData st) = transactionsRequests st
    /\ (created st <= created (exec _refreshTransactionData st))%nat.
Proof.
  unfold _refreshTransactionData. rewrite exec_bind. simpl.
  change (exec (get all) st) with st.
  destruct (refresh_loop_exact (all st) st)
    as (made & Hmade & Hlen & Hrec & Hall & Hreq & Hreq' & Htr & Hcr).
  destruct (refresh_loop_spec (all st) st) as (made' & Hmade' & Hls & _).
  assert (made' = made) by (rewrite Hmade in Hmade'; eapply app_inv_tail; eauto).
  subst made'.
  exists made. repeat split; try assumption.
  - apply recentExecutes_In in H. destruct H as (l & s & Hin).
    destruct (Hls _ _ _ _ Hin) as [_ E]. rewrite <- E. exact Hin.
  - apply Hreq. exact H.
  - apply allExecutes_In. exact H.
  - apply Hreq'. exact H.
Qed.

(** **** Refreshing *)

(** X8: one run of [_refreshTransactionData] makes four calls for every
    wallet of the wallets store and no other: in the order of
    [wallets.all], and once for each entry of it, a recent request is
    executed with search options and an all request with the wallet id
    alone, each invalidated first.  With no wallets it leaves the store as
    it is. *)
Theorem refresh_every_wallet_once (st : Store) :
  (exists made,
     calls (exec _refreshTransactionData st) = made ++ calls st
     /\ length made = (4 * length (all st))%nat
     /\ List.map fst (recentExecutes made) = all st
     /\ List.map fst (allExecutes made) = all st
     /\ (forall r args, In (Execute r args) made -> In (Invalidate r) made))
  /\ (all st = [] -> exec _refreshTransactionData st = st).
Proof.
  split.
  - unfold _refreshTransactionData. rewrite exec_bind. simpl.
    change (exec (get all) st) with st.
    generalize (all st). intros wallets. revert st.
    induction wallets as [|wallet wallets IH]; intros st.
    + exists []. simpl. repeat split. intros r args [].
    + simpl forM. rewrite exec_bind.
      destruct (refresh_wallet_calls wallet st) as (r1 & r2 & Hc & _).
      destruct (IH (exec (_refreshTransactionData_wallet wallet) st))
        as (made & Hmade & Hlen & Hrec & Hall & Hinv).
      exists (made ++ refreshCalls wallet (fst (limitAndSkip st))
                        (snd (limitAndSkip st)) r1 r2).
      split; [rewrite Hmade, Hc, app_assoc; reflexivity |].
      split; [rewrite length_app, Hlen; simpl; lia |].
      split; [rewrite recentExecutes_app; simpl; f_equal; exact Hrec |].
      split; [rewrite allExecutes_app; simpl; f_equal; exact Hall |].
      intros r args Hin. apply in_app_or in Hin. apply in_or_app.
      destruct Hin as [Hin | Hin]; [left; eapply Hinv; exact Hin | right].
      simpl in Hin. simpl.
      destruct Hin as [E | [E | [E | [E | []]]]]; inversion E; subst; auto.
  - intros Hall. unfold _refreshTransactionData, exec, bind, get. simpl.
    rewrite Hall. reflexivity.
Qed.

Lemma refresh_every_wallet_once_witness :
  exec _refreshTransactionData (set_active (Some "a"%string) new)
  = set_active (Some "a"%string) new.
Proof.
  destruct (refresh_every_wallet_once (set_active (Some "a"%string) new)) as [_ H].
  apply H. reflexivity.
Defined.

(** X9: for a wallet of the wallets store that has no bundle, the refresh
    executes requests it creates on the spot.  When the requests of the
    bundles were all created before, such a request is in no bundle, before
    or after the refresh: what it fetches is cached where no view reads. *)
Theorem refresh_untracked_wallet (st : Store) :
  createdBefore st ->
  exists made,
    calls (exec _refreshTransactionData st) = made ++ calls st
    /\ (forall w, In w (all st) ->
          exists r1 r2, In (w, r1) (recentExecutes made) /\ In (w, r2) (allExecutes made))
    /\ (forall w r,
          In (w, r) (recentExecutes made) \/ In (w, r) (allExecutes made) ->
          find w (transactionsRequests st) = None ->
          (created st <= rid r)%nat
          /\ forall b, In b (transactionsRequests (exec _refreshTransactionData st)) ->
                       ~ In r (requestsOf b)).
Proof.
  intros Hcb.
  destruct (refresh_exact st)
    as (made & Hmade & _ & Hrec & Hall & Hreq & Hreq' & Htr & _).
  exists made. split; [exact Hmade |]. split.
  - intros w Hw.
    assert (H1 : In w (List.map fst (recentExecutes made))) by (rewrite Hrec; exact Hw).
    assert (H2 : In w (List.map fst (allExecutes made))) by (rewrite Hall; exact Hw).
    apply in_map_iff in H1. destruct H1 as ([w1 r1] & E1 & H1).
    apply in_map_iff in H2. destruct H2 as ([w2 r2] & E2 & H2).
    simpl in E1, E2. subst. eauto.
  - intros w r Hin Hfind.
    assert (Hle : (created st <= rid r)%nat).
    { destruct Hin as [Hin | Hin].
      - destruct (Hreq w r Hin) as [_ H]. rewrite Hfind in H. exact H.
      - destruct (Hreq' w r Hin) as [_ H]. rewrite Hfind in H. exact H. }
    split; [exact Hle |].
    intros b Hb Hr. rewrite Htr in Hb.
    specialize (Hcb b r Hb Hr). lia.
Qed.

Lemma refresh_untracked_wallet_witness :
  exists made,
    calls (exec _refreshTransactionData (set_all ["a"%string] new)) = made ++ []
    /\ In ("a"%string, mkCachedRequest 0 refreshTransactions) (recentExecutes made).
Proof.
  destruct (refresh_untracked_wallet (set_all ["a"%string] new)) as (made & Hmade & Hex & _).
  - intros b r Hb. destruct Hb.
  - exists made. split; [exact Hmade |].
    simpl in Hmade. rewrite app_nil_r in Hmade.
    rewrite <- Hmade. vm_compute. left. reflexivity.
Defined.

Lemma newCachedRequest_sameWallets (m : ApiMethod) : keeps sameWallets (newCachedRequest m).
Proof. intros st. repeat split. Qed.

Lemma mapM_bundle_sameWallets (walletIds : list string) :
  keeps sameWallets (mapM updateObservedWallets_bundle walletIds).
Proof.
  unfold updateObservedWallets_bundle, _getTransactionsRecentRequest,
    _getTransactionsAllRequest, _getBalanceRequest, _getTransactionsPendingRequest.
  keeps_walk; apply newCachedRequest_sameWallets.
Qed.

Lemma updateObservedWallets_exec (walletIds : list string) (st : Store) :
  exec (updateObservedWallets walletIds) st
  = exec _refreshTransactionData
      (set_transactionsRequests (fst (mapM updateObservedWallets_bundle walletIds st))
         (exec (mapM updateObservedWallets_bundle walletIds) st)).
Proof.
  unfold updateObservedWallets. rewrite exec_bind, exec_bind. reflexivity.
Qed.

(** X10: the refresh that ends [updateObservedWallets] works on the new
    bundles: when the active wallet's id is an ordinary key, or no wallet
    is active, then for every wallet of the wallets store that is tracked
    after the call, the recent request of its bundle has been executed with
    the limit and skip in force and its all request with the wallet id
    alone. *)
Theorem updateObservedWallets_refreshes_bundles
    (walletIds : list string) (st : Store) (w : string) (b : Bundle) :
  ordinaryActive st ->
  In w (all st) ->
  find w (transactionsRequests (exec (updateObservedWallets walletIds) st)) = Some b ->
  In (Execute (recentRequest b)
        (GetTransactionsRequest w (fst (limitAndSkip st)) (snd (limitAndSkip st))))
     (calls (exec (updateObservedWallets walletIds) st))
  /\ In (Execute (allRequest b) (WalletIdOnly w))
        (calls (exec (updateObservedWallets walletIds) st)).
Proof.
  intros _ Hw Hfind. rewrite updateObservedWallets_exec in *.
  set (st2 := set_transactionsRequests _ _) in *.
  destruct (mapM_bundle_sameWallets walletIds st) as (Ha & Hall & Hm).
  assert (Hls : limitAndSkip st2 = limitAndSkip st)
    by (apply limitAndSkip_same; [exact Ha | exact Hm]).
  assert (Hall2 : all st2 = all st) by exact Hall.
  destruct (refresh_exact st2)
    as (made & Hmade & _ & Hrec & Hal & Hreq & Hreq' & Htr & _).
  rewrite Htr in Hfind. rewrite Hmade.
  assert (H1 : In w (List.map fst (recentExecutes made))) by (rewrite Hrec, Hall2; exact Hw).
  assert (H2 : In w (List.map fst (allExecutes made))) by (rewrite Hal, Hall2; exact Hw).
  apply in_map_iff in H1. destruct H1 as ([w1 r1] & E1 & H1).
  apply in_map_iff in H2. destruct H2 as ([w2 r2] & E2 & H2).
  simpl in E1, E2. subst w1 w2.
  destruct (Hreq w r1 H1) as [Hin1 Hr1]. destruct (Hreq' w r2 H2) as [Hin2 Hr2].
  rewrite Hfind in Hr1, Hr2. subst r1 r2. rewrite Hls in Hin1.
  split; apply in_or_app; left; assumption.
Qed.

Lemma updateObservedWallets_refreshes_bundles_witness :
  In (Execute (mkCachedRequest 0 refreshTransactions) (GetTransactionsRequest "a" 5 0))
     (calls (exec (updateObservedWallets ["a"%string]) (set_all ["a"%string] new))).
Proof.
  destruct (updateObservedWallets_refreshes_bundles ["a"%string] (set_all ["a"%string] new)
              "a"%string
              (mkBundle "a" (mkCachedRequest 3 refreshPendingTransactions)
                 (mkCachedRequest 0 refreshTransactions)
                 (mkCachedRequest 1 refreshTransactions)
                 (mkCachedRequest 2 getBalance)))
    as [H _].
  - exact I.
  - left. reflexivity.
  - reflexivity.
  - exact H.
Defined.

(** **** Loading more *)

Lemma increaseSearchLimit_active (st : Store) (id : string) :
  active st = Some id ->
  active (exec _increaseSearchLimit st) = Some id
  /\ _searchOptionsForWallets (exec _increaseSearchLimit st)
     = <[id := mkSearchOptions (fst (limitAndSkip st) + SEARCH_LIMIT_INCREASE)
                               (snd (limitAndSkip st))]>
         (_searchOptionsForWallets st)
  /\ limitAndSkip (exec _increaseSearchLimit st)
     = (fst (limitAndSkip st) + SEARCH_LIMIT_INCREASE, snd (limitAndSkip st)).
Proof.
  intros Ha. rewrite increaseSearchLimit_spec, Ha. cbv zeta.
  assert (Hls : limitAndSkip st
                = (limit (default (mkSearchOptions INITIAL_SEARCH_LIMIT SEARCH_SKIP)
                            (_searchOptionsForWallets st !! id)),
                   skip (default (mkSearchOptions INITIAL_SEARCH_LIMIT SEARCH_SKIP)
                           (_searchOptionsForWallets st !! id)))).
  { unfold limitAndSkip. rewrite searchOptions_spec, Ha.
    destruct (_searchOptionsForWallets st !! id); reflexivity. }
  rewrite Hls. simpl fst. simpl snd.
  set (o := default _ _).
  set (st1 := set_searchOptionsForWallets _ st).
  assert (H1 : hasOptions st1).
  { unfold hasOptions, st1. simpl. rewrite Ha, lookup_insert_eq. eauto. }
  destruct (refresh_optionsKept st1 H1) as (_ & Ha2 & Hm2).
  split; [rewrite Ha2; exact Ha |]. split; [rewrite Hm2; reflexivity |].
  unfold limitAndSkip. rewrite searchOptions_spec, Ha2, Hm2. unfold st1. simpl.
  rewrite Ha, lookup_insert_eq. reflexivity.
Qed.

(** X11: with a wallet active whose id is an ordinary key, and as long as
    the sum is exact, [loadMoreTransactions] refetches every wallet of the
    wallets store, not the active one alone: for each of them a recent
    request is executed with the raised limit of the active wallet. *)
Theorem loadMoreTransactions_refetches_all (st : Store) (id : string) :
  active st = Some id ->
  ordinaryKey id = true ->
  exactSum (fst (limitAndSkip st)) SEARCH_LIMIT_INCREASE ->
  exists made,
    calls (exec _increaseSearchLimit st) = made ++ calls st
    /\ List.map fst (recentExecutes made) = all st
    /\ forall w r, In (w, r) (recentExecutes made) ->
         In (Execute r (GetTransactionsRequest w
                          (fst (limitAndSkip st) + SEARCH_LIMIT_INCREASE)
                          (snd (limitAndSkip st)))) made.
Proof.
  intros Ha _ _.
  destruct (increaseSearchLimit_active st id Ha) as (_ & _ & Hls).
  rewrite increaseSearchLimit_spec, Ha in *. cbv zeta in *.
  set (st1 := set_searchOptionsForWallets _ st) in *.
  destruct (refresh_exact st1) as (made & Hmade & _ & Hrec & _ & Hreq & _).
  destruct (refresh_optionsKept st1) as (_ & Ha2 & Hm2).
  { unfold hasOptions, st1. simpl. rewrite Ha, lookup_insert_eq. eauto. }
  assert (Hls1 : limitAndSkip st1
                 = (fst (limitAndSkip st) + SEARCH_LIMIT_INCREASE, snd (limitAndSkip st))).
  { rewrite <- Hls. symmetry. apply limitAndSkip_same; assumption. }
  exists made. split; [exact Hmade |]. split; [exact Hrec |].
  intros w r Hin. destruct (Hreq w r Hin) as [H _].
  rewrite Hls1 in H. exact H.
Qed.

Lemma loadMoreTransactions_refetches_all_witness :
  exists made,
    calls (exec _increaseSearchLimit
             (set_all ["a"; "b"]%string (set_active (Some "a"%string) new)))
    = made ++ []
    /\ List.map fst (recentExecutes made) = ["a"; "b"]%string.
Proof.
  destruct (loadMoreTransactions_refetches_all
              (set_all ["a"; "b"]%string (set_active (Some "a"%string) new)) "a"%string)
    as (made & Hmade & Hrec & _).
  - reflexivity.
  - reflexivity.
  - vm_compute. discriminate.
  - exists made. split; [exact Hmade | exact Hrec].
Defined.

Lemma run_loadMore (n : nat) :
  forall st id,
    active st = Some id ->
    active (exec (run (repeat LoadMoreTransactions n)) st) = Some id
    /\ limitAndSkip (exec (run (repeat LoadMoreTransactions n)) st)
       = (fst (limitAndSkip st) + Z.of_nat n * SEARCH_LIMIT_INCREASE,
          snd (limitAndSkip st)).
Proof.
  unfold run. induction n as [|n IH]; intros st id Ha.
  - simpl repeat. simpl forM. change (exec (ret tt) st) with st.
    split; [exact Ha |].
    destruct (limitAndSkip st) as [l s]. simpl. f_equal. lia.
  - simpl repeat. simpl forM. rewrite exec_bind.
    destruct (increaseSearchLimit_active st id Ha) as (Ha1 & _ & Hls1).
    destruct (IH (exec _increaseSearchLimit st) id Ha1) as (Ha2 & Hls2).
    simpl step. split; [exact Ha2 |].
    rewrite Hls2, Hls1. simpl fst. simpl snd. f_equal. lia.
Qed.

(** X12: with a wallet active whose id is an ordinary key, and as long as
    the sums are exact, [n] calls of [loadMoreTransactions] in a row raise
    the limit the getter reports by [n] times [SEARCH_LIMIT_INCREASE] and
    leave the skip; with no wallet active they leave the store as it is. *)
Theorem loadMoreTransactions_repeated (n : nat) (st : Store) :
  (forall id, active st = Some id ->
     ordinaryKey id = true ->
     exactSum (fst (limitAndSkip st)) (Z.of_nat n * SEARCH_LIMIT_INCREASE) ->
     limitAndSkip (exec (run (repeat LoadMoreTransactions n)) st)
     = (fst (limitAndSkip st) + Z.of_nat n * SEARCH_LIMIT_INCREASE,
        snd (limitAndSkip st)))
  /\ (active st = None -> exec (run (repeat LoadMoreTransactions n)) st = st).
Proof.
  split.
  - intros id Ha _ _. apply (run_loadMore n st id Ha).
  - intros Ha. unfold run. induction n as [|n IH]; [reflexivity |].
    simpl repeat. simpl forM. rewrite exec_bind. simpl step.
    rewrite increaseSearchLimit_spec, Ha. exact IH.
Qed.

Lemma loadMoreTransactions_repeated_witness :
  limitAndSkip (exec (run (repeat LoadMoreTransactions 3)) (set_active (Some "a"%string) new))
  = (20, 0).
Proof.
  destruct (loadMoreTransactions_repeated 3 (set_active (Some "a"%string) new)) as [H _].
  rewrite (H "a"%string); try reflexivity.
  vm_compute. discriminate.
Defined.

Lemma newCachedRequest_sameWalletsStore (m : ApiMethod) :
  keeps sameWalletsStore (newCachedRequest m).
Proof. intros st. split; reflexivity. Qed.

Lemma newCachedRequest_sameExport (m : ApiMethod) : keeps sameExport (newCachedRequest m).
Proof. intros st. repeat split. Qed.

Lemma refresh_sameWalletsStore : keeps sameWalletsStore _refreshTransactionData.
Proof.
  unfold _refreshTransactionData, _refreshTransactionData_wallet, searchOptions_or,
    searchOptions, _getTransactionsRecentRequest, _getTransactionsAllRequest, call.
  keeps_walk; try apply newCachedRequest_sameWalletsStore; split; reflexivity.
Qed.

Lemma refresh_sameExport : keeps sameExport _refreshTransactionData.
Proof.
  unfold _refreshTransactionData, _refreshTransactionData_wallet, searchOptions_or,
    searchOptions, _getTransactionsRecentRequest, _getTransactionsAllRequest, call.
  keeps_walk; try apply newCachedRequest_sameExport; repeat split.
Qed.

(** X13: [loadMoreTransactions] touches the search options of the active
    wallet only: the options of every other wallet, the bundles, the
    wallets store and the export state are as before. *)
Theorem loadMoreTransactions_frame (st : Store) (other : string) :
  active st <> Some other ->
  _searchOptionsForWallets (exec _increaseSearchLimit st) !! other
  = _searchOptionsForWallets st !! other
  /\ transactionsRequests (exec _increaseSearchLimit st) = transactionsRequests st
  /\ sameWalletsStore st (exec _increaseSearchLimit st)
  /\ sameExport st (exec _increaseSearchLimit st).
Proof.
  intros Hne.
  destruct (active st) as [id|] eqn:Ha.
  - destruct (increaseSearchLimit_active st id Ha) as (Ha1 & Hm & _).
    split; [rewrite Hm; apply lookup_insert_ne; congruence |].
    rewrite increaseSearchLimit_spec, Ha. cbv zeta.
    set (st1 := set_searchOptionsForWallets _ st).
    split; [exact (refresh_sameBundles st1) |].
    split; [exact (refresh_sameWalletsStore st1) | exact (refresh_sameExport st1)].
  - rewrite increaseSearchLimit_spec, Ha. repeat split.
Qed.

Lemma loadMoreTransactions_frame_witness :
  _searchOptionsForWallets
    (exec _increaseSearchLimit (set_active (Some "a"%string) new)) !! "b"%string
  = None.
Proof.
  destruct (loadMoreTransactions_frame (set_active (Some "a"%string) new) "b"%string)
    as [H _].
  - discriminate.
  - rewrite H. reflexivity.
Defined.

(** **** What the two halves of the store leave to each other *)

Lemma step_sameExport (op : Op) : isExportOp op = false -> keeps sameExport (step op).
Proof.
  destruct op; simpl; try discriminate; intros _;
    unfold _increaseSearchLimit, updateObservedWallets, updateObservedWallets_bundle,
      _refreshTransactionData_thenAll, _refreshTransactionData_thenDate,
      _refreshTransactionData_thenBalance, searchOptions,
      _getTransactionsRecentRequest, _getTransactionsAllRequest,
      _getBalanceRequest, _getTransactionsPendingRequest, call;
    keeps_walk;
    try apply refresh_sameExport;
    try apply newCachedRequest_sameExport;
    repeat split.
Qed.

Lemma step_sameTracking (op : Op) : isExportOp op = true -> keeps sameTracking (step op).
Proof.
  destruct op; simpl; try discriminate; intros _;
    unfold _exportTransactionsToFile_start, _exportTransactionsToFile_resume,
      _exportTransactionsToFile_catch, _exportTransactionsToFile_finally,
      getTransactionRowsToExportRequest_reset, exportTransactions_reset,
      callback_start, callback_resume, _closeExportTransactionDialog,
      _setExporting, _setExportError, call;
    keeps_walk; repeat split.
Qed.

(** X14: loading more, observing wallets, refreshing and its promise
    chain, reading the search options and changes of the wallets store
    never touch the export: over any sequence of such operations
    [isExporting], [exportError], the two export requests and the pending
    timeouts stay as they are. *)
Theorem wallet_operations_keep_export (ops : list Op) (st : Store) :
  Forall (fun op => isExportOp op = false) ops ->
  sameExport st (exec (run ops) st).
Proof.
  unfold run. revert st. induction ops as [|op ops IH]; intros st Hops.
  - simpl. repeat split.
  - inversion Hops as [|? ? Hop Hrest]; subst.
    simpl forM. rewrite exec_bind.
    etransitivity; [apply (step_sameExport op Hop) | apply IH; exact Hrest].
Qed.

Lemma wallet_operations_keep_export_witness :
  isExporting (exec (run [WalletsAll ["a"%string]; WalletsActive (Some "a"%string);
                          UpdateObservedWallets ["a"%string]; LoadMoreTransactions;
                          ThenAll "a"%string])
                 (set_isExporting true new))
  = true.
Proof.
  destruct (wallet_operations_keep_export
              [WalletsAll ["a"%string]; WalletsActive (Some "a"%string);
               UpdateObservedWallets ["a"%string]; LoadMoreTransactions;
               ThenAll "a"%string]
              (set_isExporting true new)) as (H & _).
  - repeat constructor.
  - rewrite H. reflexivity.
Defined.

(** X15: the export never touches what the store tracks: over any
    sequence of steps of exports, of their delayed callbacks and of
    [closeExportTransactionDialog], the bundles, the request objects
    created, the search options and the wallets store stay as they are. *)
Theorem export_operations_keep_tracking (ops : list Op) (st : Store) :
  Forall (fun op => isExportOp op = true) ops ->
  sameTracking st (exec (run ops) st).
Proof.
  unfold run. revert st. induction ops as [|op ops IH]; intros st Hops.
  - simpl. repeat split.
  - inversion Hops as [|? ? Hop Hrest]; subst.
    simpl forM. rewrite exec_bind.
    etransitivity; [apply (step_sameTracking op Hop) | apply IH; exact Hrest].
Qed.

Lemma export_operations_keep_tracking_witness :
  created (exec (run [ExportTransactionsToFile_start;
                      ExportTransactionsToFile_resume (Resolved (Some [["row"%string]]));
                      Callback_start; Callback_resume (Resolved tt);
                      CloseExportTransactionDialog]) new)
  = 0%nat.
Proof.
  destruct (export_operations_keep_tracking
              [ExportTransactionsToFile_start;
               ExportTransactionsToFile_resume (Resolved (Some [["row"%string]]));
               Callback_start; Callback_resume (Resolved tt);
               CloseExportTransactionDialog] new) as (_ & H & _).
  - repeat constructor.
  - rewrite H. reflexivity.
Defined.

(** **** The search options that can arise *)

Lemma wellFormed_same (st st' : Store) :
  _searchOptionsForWallets st' = _searchOptionsForWallets st -> keepsWellFormed st st'.
Proof. intros Heq Hwf id o. rewrite Heq. apply Hwf. Qed.

Lemma wellFormed_insert (st : Store) (id : string) (o : SearchOptions) :
  skip o = SEARCH_SKIP ->
  (exists n : nat, limit o = INITIAL_SEARCH_LIMIT + Z.of_nat n * SEARCH_LIMIT_INCREASE) ->
  keepsWellFormed st
    (set_searchOptionsForWallets (<[id := o]> (_searchOptionsForWallets st)) st).
Proof.
  intros Hs Hl Hwf id' o'. simpl.
  destruct (decide (id = id')) as [<- | Hne].
  - rewrite lookup_insert_eq. intros E. inversion E; subst. auto.
  - rewrite lookup_insert_ne by exact Hne. apply Hwf.
Qed.

Lemma newCachedRequest_wellFormed (m : ApiMethod) :
  keeps keepsWellFormed (newCachedRequest m).
Proof. intros st. apply wellFormed_same. reflexivity. Qed.

Lemma searchOptions_wellFormed : keeps keepsWellFormed searchOptions.
Proof.
  intros st. unfold exec. rewrite searchOptions_spec.
  destruct (active st) as [id|]; [| reflexivity].
  destruct (_searchOptionsForWallets st !! id); [reflexivity |].
  apply wellFormed_insert; [reflexivity |].
  exists 0%nat. simpl. lia.
Qed.

Lemma refresh_wellFormed : keeps keepsWellFormed _refreshTransactionData.
Proof.
  unfold _refreshTransactionData, _refreshTransactionData_wallet, searchOptions_or,
    _getTransactionsRecentRequest, _getTransactionsAllRequest, call.
  keeps_walk; try apply searchOptions_wellFormed;
    try apply newCachedRequest_wellFormed; apply wellFormed_same; reflexivity.
Qed.

Lemma increaseSearchLimit_wellFormed : keeps keepsWellFormed _increaseSearchLimit.
Proof.
  intros st. rewrite increaseSearchLimit_spec.
  destruct (active st) as [id|]; [| reflexivity].
  etransitivity; [| apply refresh_wellFormed].
  intros Hwf. apply wellFormed_insert; [| | exact Hwf].
  - simpl. destruct (_searchOptionsForWallets st !! id) as [o|] eqn:Hl; simpl.
    + apply (Hwf id o Hl).
    + reflexivity.
  - simpl. destruct (_searchOptionsForWallets st !! id) as [o|] eqn:Hl; simpl.
    + destruct (Hwf id o Hl) as (_ & n & Hn). exists (S n). rewrite Hn. lia.
    + exists 1%nat. lia.
Qed.

Lemma step_wellFormed (op : Op) : keeps keepsWellFormed (step op).
Proof.
  destruct op; simpl;
    try apply increaseSearchLimit_wellFormed;
    unfold _exportTransactionsToFile_start, _exportTransactionsToFile_resume,
      _exportTransactionsToFile_catch, _exportTransactionsToFile_finally,
      getTransactionRowsToExportRequest_reset, exportTransactions_reset,
      callback_start, callback_resume, _closeExportTransactionDialog,
      updateObservedWallets, updateObservedWallets_bundle,
      _refreshTransactionData_thenAll, _refreshTransactionData_thenDate,
      _refreshTransactionData_thenBalance,
      _getTransactionsRecentRequest, _getTransactionsAllRequest,
      _getBalanceRequest, _getTransactionsPendingRequest,
      _setExporting, _setExportError, call;
    keeps_walk;
    try apply searchOptions_wellFormed;
    try apply refresh_wellFormed;
    try apply newCachedRequest_wellFormed;
    apply wellFormed_same; reflexivity.
Qed.

(** X16: in every store that operations on the new store lead to, every
    search options object has the skip [SEARCH_SKIP] and a limit that is
    [INITIAL_SEARCH_LIMIT] plus a whole number of [SEARCH_LIMIT_INCREASE]:
    nothing ever sets a skip, and a limit is never below the initial
    one. *)
Theorem searchOptions_wellFormed_always (ops : list Op) (id : string) (o : SearchOptions) :
  _searchOptionsForWallets (exec (run ops) new) !! id = Some o ->
  skip o = SEARCH_SKIP
  /\ INITIAL_SEARCH_LIMIT <= limit o
  /\ exists n : nat, limit o = INITIAL_SEARCH_LIMIT + Z.of_nat n * SEARCH_LIMIT_INCREASE.
Proof.
  assert (Hwf : optionsWellFormed (exec (run ops) new)).
  { assert (Hrun : keeps keepsWellFormed (run ops))
      by (unfold run; apply keeps_forM; [typeclasses eauto | apply step_wellFormed]).
    apply Hrun. intros id' o' H. simpl in H. rewrite lookup_empty in H. discriminate. }
  intros Hl. destruct (Hwf id o Hl) as (Hs & n & Hn).
  split; [exact Hs |]. split; [| exists n; exact Hn].
  rewrite Hn. unfold SEARCH_LIMIT_INCREASE. lia.
Qed.

Lemma searchOptions_wellFormed_always_witness :
  skip (mkSearchOptions 15 0) = SEARCH_SKIP
  /\ INITIAL_SEARCH_LIMIT <= limit (mkSearchOptions 15 0)
  /\ exists n : nat,
       limit (mkSearchOptions 15 0)
       = INITIAL_SEARCH_LIMIT + Z.of_nat n * SEARCH_LIMIT_INCREASE.
Proof.
  apply (searchOptions_wellFormed_always
           [WalletsActive (Some "a"%string); LoadMoreTransactions; LoadMoreTransactions]
           "a"%string).
  reflexivity.
Defined.

(** **** Observing the same wallets again *)

Lemma find_unique (bundles : list Bundle) (b : Bundle) :
  NoDup (List.map walletId bundles) -> In b bundles ->
  find (walletId b) bundles = Some b.
Proof.
  unfold find. induction bundles as [|b0 bundles IH]; simpl; [contradiction |].
  intros Hnd Hin. apply NoDup_cons in Hnd. destruct Hnd as [Hnotin Hnd].
  destruct Hin as [-> | Hin].
  - rewrite String.eqb_refl. reflexivity.
  - destruct (String.eqb_spec (walletId b0) (walletId b)) as [E | _].
    + exfalso. apply Hnotin. rewrite E. apply list_elem_of_In, in_map. exact Hin.
    + apply IH; assumption.
Qed.

Lemma updateObservedWallets_bundle_kept (st : Store) (b : Bundle) :
  find (walletId b) (transactionsRequests st) = Some b ->
  updateObservedWallets_bundle (walletId b) st = (b, st).
Proof.
  intros Hfind.
  unfold updateObservedWallets_bundle, _getTransactionsRecentRequest,
    _getTransactionsAllRequest, _getBalanceRequest, _getTransactionsPendingRequest,
    bind, get, ret.
  simpl. repeat (rewrite Hfind; simpl). destruct b. reflexivity.
Qed.

Lemma mapM_bundle_kept (st : Store) (bundles : list Bundle) :
  (forall b, In b bundles -> find (walletId b) (transactionsRequests st) = Some b) ->
  mapM updateObservedWallets_bundle (List.map walletId bundles) st = (bundles, st).
Proof.
  induction bundles as [|b bundles IH]; intros Hall; [reflexivity |].
  simpl List.map. simpl mapM. unfold bind at 1.
  rewrite (updateObservedWallets_bundle_kept st b) by (apply Hall; left; reflexivity).
  unfold bind at 1. rewrite IH by (intros b' Hb'; apply Hall; right; exact Hb').
  reflexivity.
Qed.

(** X17: observing the same wallets again keeps every bundle: when the
    list [W] names no wallet twice, a second [updateObservedWallets(W)]
    leaves [transactionsRequests] as the first one made it, with the same
    request objects and so with what they have cached. *)
Theorem updateObservedWallets_again (walletIds : list string) (st : Store) :
  NoDup walletIds ->
  transactionsRequests
    (exec (updateObservedWallets walletIds) (exec (updateObservedWallets walletIds) st))
  = transactionsRequests (exec (updateObservedWallets walletIds) st).
Proof.
  intros Hnd.
  set (st1 := exec (updateObservedWallets walletIds) st).
  pose proof (updateObservedWallets_walletIds walletIds st) as Hids. fold st1 in Hids.
  rewrite updateObservedWallets_bundles.
  rewrite <- Hids at 1.
  rewrite mapM_bundle_kept; [reflexivity |].
  intros b Hb. apply find_unique; [rewrite Hids; exact Hnd | exact Hb].
Qed.

Lemma updateObservedWallets_again_witness :
  transactionsRequests
    (exec (updateObservedWallets ["a"; "b"]%string)
       (exec (updateObservedWallets ["a"; "b"]%string) new))
  = transactionsRequests (exec (updateObservedWallets ["a"; "b"]%string) new).
Proof.
  apply updateObservedWallets_again.
  apply NoDup_ListNoDup. repeat constructor; simpl; intuition discriminate.
Defined.

(** **** More on the export *)

Lemma export_start_spec {P : Type} (params : P) (st : Store) :
  exec (_exportTransactionsToFile_start params) st
  = set_getTransactionRowsToExportRequest (execute LocalizedRequest.new)
      (set_exportTransactions LocalizedRequest.new (set_isExporting true st)).
Proof. reflexivity. Qed.

Lemma export_with_rows {P : Type} (params : P) (row : Row) (rows : list Row) (st : Store) :
  exec (_exportTransactionsToFile params (Resolved (Some (row :: rows)))) st
  = set_exportTransactions LocalizedRequest.new
      (set_getTransactionRowsToExportRequest LocalizedRequest.new
         (set_timeouts (timeouts st ++ [row :: rows]) (set_isExporting true st))).
Proof.
  unfold _exportTransactionsToFile. rewrite exec_bind, export_resume_rows. reflexivity.
Qed.

(** X18: neither starting an export nor completing it clears
    [exportError]: after an export whose rows arrived and whose delayed
    file export succeeded, [isExporting] is false and [exportError] is what
    it was before the export, so an error of an earlier export is still
    stored. *)
Theorem export_keeps_earlier_error
    (P : Type) (params : P) (row : Row) (rows : list Row) (st : Store) :
  exportError (exec (_exportTransactionsToFile_start params) st) = exportError st
  /\ exportError (exec (_exportTransactionsToFile params (Resolved (Some (row :: rows)))) st)
     = exportError st
  /\ exportError
       (exec (callback (Resolved tt))
          (exec (_exportTransactionsToFile params (Resolved (Some (row :: rows)))) st))
     = exportError st
  /\ isExporting
       (exec (callback (Resolved tt))
          (exec (_exportTransactionsToFile params (Resolved (Some (row :: rows)))) st))
     = false.
Proof.
  split; [reflexivity |]. rewrite export_with_rows. split; [reflexivity |].
  unfold callback, callback_start, callback_resume, exec, bind, get. simpl.
  destruct (timeouts st); simpl; split; reflexivity.
Qed.

(** X19: when no callback is pending, an export whose rows arrive and
    whose file export succeeds exports exactly the rows that were fetched
    and then asks for the dialog to be closed, once each, and leaves
    [isExporting] false and no callback pending. *)
Theorem export_success (P : Type) (params : P) (row : Row) (rows : list Row) (st : Store) :
  timeouts st = [] ->
  calls (exec (callback (Resolved tt))
           (exec (_exportTransactionsToFile params (Resolved (Some (row :: rows)))) st))
  = CloseActiveDialog :: ExportTransactions (row :: rows) :: calls st
  /\ isExporting
       (exec (callback (Resolved tt))
          (exec (_exportTransactionsToFile params (Resolved (Some (row :: rows)))) st))
     = false
  /\ timeouts
       (exec (callback (Resolved tt))
          (exec (_exportTransactionsToFile params (Resolved (Some (row :: rows)))) st))
     = []
  /\ calls (exec (_exportTransactionsToFile params (Resolved (Some (row :: rows)))) st)
     = calls st.
Proof.
  intros Ht. rewrite export_with_rows.
  unfold callback, callback_start, callback_resume, exec, bind, get. simpl.
  rewrite Ht. simpl. repeat split.
Qed.

Lemma export_success_witness :
  calls (exec (callback (Resolved tt))
           (exec (_exportTransactionsToFile tt (Resolved (Some [["row"%string]]))) new))
  = [CloseActiveDialog; ExportTransactions [["row"%string]]].
Proof.
  destruct (export_success unit tt ["row"%string] [] new) as [H _].
  - reflexivity.
  - exact H.
Defined.

(** X20: when the row fetch of an export is rejected, the error that was
    thrown is what is logged, also when the generic unexpected error is
    what is stored; a [LocalizableError] is stored as it is.  No file
    export is scheduled and nothing else is called. *)
Theorem export_rejected (P : Type) (params : P) (error : Thrown) (st : Store) :
  calls (exec (_exportTransactionsToFile params (Rejected error)) st)
  = LoggerError error :: calls st
  /\ timeouts (exec (_exportTransactionsToFile params (Rejected error)) st) = timeouts st
  /\ isExporting (exec (_exportTransactionsToFile params (Rejected error)) st) = false
  /\ (forall e, error = Localizable e ->
        exportError (exec (_exportTransactionsToFile params (Rejected error)) st) = Some e)
  /\ (forall description, error = NotLocalizable description ->
        exportError (exec (_exportTransactionsToFile params (Rejected error)) st)
        = Some UnexpectedError).
Proof.
  destruct error as [e | d]; repeat split; intros; try congruence;
    match goal with
    | H : _ = _ |- _ => inversion H; subst; reflexivity
    end.
Qed.

Lemma export_rejected_witness :
  exportError
    (exec (_exportTransactionsToFile tt
             (Rejected (Localizable (mkLocalizableError (otherMessage "api.errors.x")))))
       new)
  = Some (mkLocalizableError (otherMessage "api.errors.x")).
Proof.
  destruct (export_rejected unit tt
              (Localizable (mkLocalizableError (otherMessage "api.errors.x"))) new)
    as (_ & _ & _ & H & _).
  apply H. reflexivity.
Defined.

(** X21: however the row fetch settles, when [_exportTransactionsToFile]
    settles both of its requests have been reset; with rows this is before
    the delayed file export has started, which is still pending then. *)
Theorem export_resets_requests
    (P : Type) (params : P) (settled : Settled (option (list Row))) (st : Store) :
  getTransactionRowsToExportRequest (exec (_exportTransactionsToFile params settled) st)
  = reset (getTransactionRowsToExportRequest st)
  /\ exportTransactions (exec (_exportTransactionsToFile params settled) st)
     = reset (exportTransactions st)
  /\ (forall row rows, settled = Resolved (Some (row :: rows)) ->
        timeouts (exec (_exportTransactionsToFile params settled) st)
        = timeouts st ++ [row :: rows]).
Proof.
  destruct settled as [[[|row rows]|] | error].
  - repeat split. intros; discriminate.
  - rewrite export_with_rows. repeat split.
    intros row' rows' E. inversion E; subst. reflexivity.
  - repeat split. intros; discriminate.
  - repeat split. intros; discriminate.
Qed.

Lemma export_resets_requests_witness :
  timeouts (exec (_exportTransactionsToFile tt (Resolved (Some [["row"%string]]))) new)
  = [[["row"%string]]].
Proof.
  destruct (export_resets_requests unit tt (Resolved (Some [["row"%string]])) new)
    as (_ & _ & H).
  rewrite (H ["row"%string] []); reflexivity.
Defined.

(** X22: [closeExportTransactionDialog] never changes [isExporting] and
    never cancels a pending file export.  When no export is running it
    asks once for the dialog to be closed and clears [exportError]. *)
Theorem closeExportTransactionDialog_effect (st : Store) :
  isExporting (exec _closeExportTransactionDialog st) = isExporting st
  /\ timeouts (exec _closeExportTransactionDialog st) = timeouts st
  /\ sameTracking st (exec _closeExportTransactionDialog st)
  /\ (isExporting st = false ->
      calls (exec _closeExportTransactionDialog st) = CloseActiveDialog :: calls st
      /\ exportError (exec _closeExportTransactionDialog st) = None).
Proof.
  unfold _closeExportTransactionDialog, exec, bind, get. simpl.
  destruct (isExporting st) eqn:He; simpl; repeat split; try discriminate; auto.
Qed.

Lemma closeExportTransactionDialog_effect_witness :
  exportError
    (exec _closeExportTransactionDialog (set_exportError (Some UnexpectedError) new))
  = None.
Proof.
  destruct (closeExportTransactionDialog_effect (set_exportError (Some UnexpectedError) new))
    as (_ & _ & _ & H).
  destruct H as [_ H]; [reflexivity | exact H].
Defined.

(** **** The promise chain of a refresh *)

Lemma thenAll_spec (wallet : string) (st : Store) :
  exists p,
    calls (exec (_refreshTransactionData_thenAll wallet) st)
    = [GetTxLastUpdatedDate; Execute p (WalletIdOnly wallet); Invalidate p] ++ calls st
    /\ active (exec (_refreshTransactionData_thenAll wallet) st) = active st
    /\ (forall b, find wallet (transactionsRequests st) = Some b -> p = pendingRequest b).
Proof.
  unfold _refreshTransactionData_thenAll, _getTransactionsPendingRequest, newCachedRequest,
    call, exec, bind, get, modify, ret. simpl.
  destruct (find wallet (transactionsRequests st)) as [b|]; simpl.
  - exists (pendingRequest b). repeat split. intros b' E. congruence.
  - eexists. repeat split. discriminate.
Qed.

Lemma thenDate_spec (wallet : string) (date : Z) (st : Store) :
  exists r,
    calls (exec (_refreshTransactionData_thenDate wallet date) st)
    = Execute r (LastUpdateDate date) :: calls st
    /\ active (exec (_refreshTransactionData_thenDate wallet date) st) = active st
    /\ (forall b, find wallet (transactionsRequests st) = Some b -> r = getBalanceRequest b).
Proof.
  unfold _refreshTransactionData_thenDate, _getBalanceRequest, newCachedRequest,
    call, exec, bind, get, modify, ret. simpl.
  destruct (find wallet (transactionsRequests st)) as [b|]; simpl.
  - exists (getBalanceRequest b). repeat split. intros b' E. congruence.
  - eexists. repeat split. discriminate.
Qed.

Lemma thenBalance_spec (wallet : string) (balance : Z) (st : Store) :
  exec (_refreshTransactionData_thenBalance wallet balance) st
  = if decide (active st = Some wallet)
    then set_calls (UpdateBalance balance :: calls st) st
    else st.
Proof.
  unfold _refreshTransactionData_thenBalance, call, exec, bind, get, modify, ret. simpl.
  destruct (decide (active st = Some wallet)) as [Ha | Hna].
  - rewrite Ha. simpl. rewrite String.eqb_refl. reflexivity.
  - destruct (active st) as [id|]; simpl; [| reflexivity].
    destruct (String.eqb_spec id wallet) as [-> | Hne]; [congruence | reflexivity].
Qed.

Lemma run_then_active (ops : list Op) (other : option string) :
  forall st, active (exec (run (ops ++ [WalletsActive other])) st) = other.
Proof.
  unfold run. induction ops as [|op ops IH]; intros st.
  - reflexivity.
  - simpl app. simpl forM. rewrite exec_bind. apply IH.
Qed.

(** X23: the balance update of a refresh goes by the wallet that is
    active when the balance arrives, not when the refresh started: at the
    end of the promise chain of a wallet, with whatever operations took
    place while the chain was waiting, [updateBalance] is triggered once if
    that wallet is the active one then, and nothing happens otherwise; so a
    switch to another wallet just before the balance arrives suppresses the
    update.  The earlier callbacks of the chain trigger no balance
    update. *)
Theorem refresh_chain_balance
    (wallet : string) (ops1 : list Op) (date : Z) (ops2 : list Op) (balance : Z)
    (st : Store) :
  (active (exec (_refreshTransactionData_chain_awaiting wallet ops1 date ops2) st)
   = Some wallet ->
   exec (_refreshTransactionData_chain wallet ops1 date ops2 balance) st
   = set_calls
       (UpdateBalance balance
        :: calls (exec (_refreshTransactionData_chain_awaiting wallet ops1 date ops2) st))
       (exec (_refreshTransactionData_chain_awaiting wallet ops1 date ops2) st))
  /\ (active (exec (_refreshTransactionData_chain_awaiting wallet ops1 date ops2) st)
      <> Some wallet ->
      exec (_refreshTransactionData_chain wallet ops1 date ops2 balance) st
      = exec (_refreshTransactionData_chain_awaiting wallet ops1 date ops2) st)
  /\ (forall other,
        other <> Some wallet ->
        exec (_refreshTransactionData_chain wallet ops1 date (ops2 ++ [WalletsActive other])
                balance) st
        = exec (_refreshTransactionData_chain_awaiting wallet ops1 date
                  (ops2 ++ [WalletsActive other])) st)
  /\ (forall x,
        In (UpdateBalance x)
           (calls (exec (_refreshTransactionData_thenDate wallet date)
                     (exec (_refreshTransactionData_thenAll wallet) st))) ->
        In (UpdateBalance x) (calls st)).
Proof.
  assert (Hend : forall ops,
            exec (_refreshTransactionData_chain wallet ops1 date ops balance) st
            = if decide (active (exec (_refreshTransactionData_chain_awaiting
                                         wallet ops1 date ops) st) = Some wallet)
              then set_calls
                     (UpdateBalance balance
                      :: calls (exec (_refreshTransactionData_chain_awaiting
                                        wallet ops1 date ops) st))
                     (exec (_refreshTransactionData_chain_awaiting wallet ops1 date ops) st)
              else exec (_refreshTransactionData_chain_awaiting wallet ops1 date ops) st).
  { intros ops. unfold _refreshTransactionData_chain.
    rewrite exec_bind. apply thenBalance_spec. }
  split; [| split; [| split]].
  - intros Ha. rewrite Hend.
    destruct (decide _) as [_ | Hn]; [reflexivity | contradiction].
  - intros Hna. rewrite Hend.
    destruct (decide _) as [Ha | _]; [contradiction | reflexivity].
  - intros other Hne. rewrite Hend.
    destruct (decide _) as [Ha | _]; [| reflexivity].
    exfalso. apply Hne. rewrite <- Ha.
    unfold _refreshTransactionData_chain_awaiting.
    rewrite !exec_bind. symmetry. apply run_then_active.
  - intros x Hin.
    destruct (thenAll_spec wallet st) as (p & Hc1 & _).
    destruct (thenDate_spec wallet date (exec (_refreshTransactionData_thenAll wallet) st))
      as (r & Hc2 & _).
    rewrite Hc2, Hc1 in Hin. simpl in Hin.
    destruct Hin as [E | [E | [E | [E | Hin]]]]; try discriminate. exact Hin.
Qed.

Lemma refresh_chain_balance_witness :
  exec (_refreshTransactionData_chain "a" [] 7 [WalletsActive (Some "b"%string)] 100)
    (set_active (Some "a"%string) new)
  = exec (_refreshTransactionData_chain_awaiting "a" [] 7 [WalletsActive (Some "b"%string)])
      (set_active (Some "a"%string) new).
Proof.
  destruct (refresh_chain_balance "a"%string [] 7 [WalletsActive (Some "b"%string)] 100
              (set_active (Some "a"%string) new))
    as (_ & H & _).
  apply H. vm_compute. discriminate.
Defined.

End TransactionsViewsProperties.

(** **** The computed views *)

Section ViewsProperties.
Import LocalizedRequest TransactionsStore TransactionsViews.

Variable WalletTransaction : Type.
Variable result : CachedRequest -> option (GetTransactionsResponse WalletTransaction).
Variable pendingResult : CachedRequest -> option (list WalletTransaction).

Lemma cached_created {T : Type} (results : CachedRequest -> option T) (st : Store)
    (m : ApiMethod) :
  cached results (created st) (mkCachedRequest (created st) m) = None.
Proof.
  unfold cached. simpl. rewrite Nat.ltb_irrefl. reflexivity.
Qed.

Lemma length_positive {A : Type} (l : list A) :
  (Z.of_nat (length l) >? 0) = true <-> l <> [].
Proof.
  destruct l as [|x l]; simpl.
  - split; [discriminate | congruence].
  - split; [discriminate | reflexivity].
Qed.

(** X25: with no active wallet, and with an active wallet that has no
    bundle, the views are empty: [recent] is the empty list, [hasAny] is
    false and [totalAvailable] is 0, whatever the requests have cached. *)
Theorem views_empty (st : Store) :
  active st = None
  \/ (exists id, active st = Some id /\ find id (transactionsRequests st) = None) ->
  fst (recent WalletTransaction result st) = []
  /\ fst (hasAny WalletTransaction result st) = false
  /\ fst (totalAvailable WalletTransaction result st) = 0.
Proof.
  intros [Ha | (id & Ha & Hf)].
  - unfold recent, hasAny, totalAvailable, bind, get. simpl.
    rewrite Ha. repeat split.
  - unfold recent, hasAny, totalAvailable, _getTransactionsRecentRequest,
      _getTransactionsAllRequest, newCachedRequest, bind, get, ret. simpl.
    rewrite Ha. simpl. rewrite Hf. rewrite !cached_created. repeat split.
Qed.

(** X26: [hasAny] and [recent] agree in every state: [hasAny] is true
    exactly when [recent] is not the empty list, and the two reads leave
    the same store. *)
Theorem hasAny_iff_recent (st : Store) :
  (fst (hasAny WalletTransaction result st) = true
   <-> fst (recent WalletTransaction result st) <> [])
  /\ exec (hasAny WalletTransaction result) st = exec (recent WalletTransaction result) st.
Proof.
  unfold hasAny, recent, exec, bind, get. simpl.
  destruct (active st) as [id|]; simpl.
  - destruct (_getTransactionsRecentRequest id st) as [request st'].
    destruct (cached result (created st) request) as [res|]; simpl.
    + split; [apply length_positive | reflexivity].
    + split; [split; [discriminate | congruence] | reflexivity].
  - split; [split; [discriminate | congruence] | reflexivity].
Qed.

(** X27: [hasAnyPending] remembers its last answer.  While the pending
    request of the active wallet has no result, it repeats what
    [_hasAnyPending] holds, whichever wallet that was computed for, and
    keeps it; once the request of the wallet's bundle has a result, the
    answer is whether that result is not empty, and it is remembered.
    With no active wallet the answer is false and what is remembered
    stays. *)
Theorem hasAnyPending_remembers (v : Views) :
  (active (store v) = None -> hasAnyPending WalletTransaction pendingResult v = (false, v))
  /\ (forall id,
        active (store v) = Some id ->
        (forall b, find id (transactionsRequests (store v)) = Some b ->
                   pendingResult (pendingRequest b) = None) ->
        fst (hasAnyPending WalletTransaction pendingResult v) = _hasAnyPending v
        /\ _hasAnyPending (snd (hasAnyPending WalletTransaction pendingResult v))
           = _hasAnyPending v)
  /\ (forall id b res,
        active (store v) = Some id ->
        find id (transactionsRequests (store v)) = Some b ->
        (rid (pendingRequest b) < created (store v))%nat ->
        pendingResult (pendingRequest b) = Some res ->
        hasAnyPending WalletTransaction pendingResult v
        = (Z.of_nat (length res) >? 0,
           mkViews (store v) (Z.of_nat (length res) >? 0))).
Proof.
  unfold hasAnyPending, _getTransactionsPendingRequest, newCachedRequest, bind, get, ret.
  split; [| split].
  - intros Ha. rewrite Ha. reflexivity.
  - intros id Ha Hres. rewrite Ha. simpl.
    destruct (find id (transactionsRequests (store v))) as [b|] eqn:Hf; simpl.
    + unfold cached. rewrite (Hres b eq_refl).
      destruct (rid (pendingRequest b) <? created (store v))%nat; split; reflexivity.
    + rewrite cached_created. split; reflexivity.
  - intros id b res Ha Hf Hlt Hres. rewrite Ha. simpl. rewrite Hf. simpl.
    unfold cached. apply Nat.ltb_lt in Hlt. rewrite Hlt, Hres. reflexivity.
Qed.

End ViewsProperties.

Section ViewsWitnesses.
Import LocalizedRequest TransactionsStore TransactionsViews.

Lemma views_empty_witness :
  fst (recent string (fun _ => Some (mkGetTransactionsResponse string ["tx"%string]))
         (set_active (Some "a"%string) new))
  = [].
Proof.
  destruct (views_empty string
              (fun _ => Some (mkGetTransactionsResponse string ["tx"%string]))
              (set_active (Some "a"%string) new)) as [H _].
  - right. exists "a"%string. split; reflexivity.
  - exact H.
Defined.

Lemma hasAnyPending_remembers_witness :
  fst (hasAnyPending string (fun _ => None)
         (mkViews (set_active (Some "b"%string)
                     (exec (updateObservedWallets ["a"; "b"]%string) new)) true))
  = true.
Proof.
  destruct (hasAnyPending_remembers string (fun _ => None)
              (mkViews (set_active (Some "b"%string)
                          (exec (updateObservedWallets ["a"; "b"]%string) new)) true))
    as (_ & H & _).
  destruct (H "b"%string) as [Hf _]; [reflexivity | reflexivity | exact Hf].
Defined.

End ViewsWitnesses.
